(* Shallow embedding of the UTM packer plugin build steps
   (builder/utm/common: step_attach_isos.go, step_configure_qemu_args.go,
   step_download_guest_additions.go, and QemuConfig.Prepare). *)

From Stdlib Require Import String Ascii NArith.
From stdpp Require Import base gmap list strings.

Open Scope list_scope.

(* ------------------------------------------------------------------ *)
(** * Go strings *)

(** A Go string is modelled as the sequence of its runes (Unicode code
    points).  Configuration strings come from JSON/HCL decoding and are
    valid UTF-8, so this is the text the Go functions operate on. *)
Definition rune := N.
Definition gostring := list rune.

(** String literals of the source, all of them ASCII. *)
Definition lit (s : string) : gostring :=
  map (fun a => N_of_ascii a) (list_ascii_of_string s).

(** strings.Join(elems, sep) *)
Fixpoint Join (elems : list gostring) (sep : gostring) : gostring :=
  match elems with
  | [] => []
  | [x] => x
  | x :: xs => x ++ sep ++ Join xs sep
  end.

(** unicode.IsSpace *)
Definition IsSpace (r : rune) : bool :=
  if (r <=? 255)%N then
    (* '\t', '\n', '\v', '\f', '\r', ' ', U+0085 (NEL), U+00A0 (NBSP) *)
    ((9 <=? r) && (r <=? 13))%N || (r =? 32)%N || (r =? 133)%N || (r =? 160)%N
  else
    (* White_Space outside Latin-1 *)
    (r =? 5760)%N || ((8192 <=? r) && (r <=? 8202))%N || (r =? 8232)%N
    || (r =? 8233)%N || (r =? 8239)%N || (r =? 8287)%N || (r =? 12288)%N.

(** strings.TrimLeftFunc / TrimRightFunc / TrimSpace *)
Fixpoint TrimLeftFunc (s : gostring) (f : rune -> bool) : gostring :=
  match s with
  | [] => []
  | r :: s' => if f r then TrimLeftFunc s' f else s
  end.

Definition TrimRightFunc (s : gostring) (f : rune -> bool) : gostring :=
  rev (TrimLeftFunc (rev s) f).

Definition TrimSpace (s : gostring) : gostring :=
  TrimRightFunc (TrimLeftFunc s IsSpace) IsSpace.

(* ------------------------------------------------------------------ *)
(** * Shared build state, driver and host library *)

Inductive StepAction := ActionContinue | ActionHalt.

(** Go results (value, error): the error is kept as its message. *)
Inductive res (A : Type) := Ok (v : A) | Err (e : gostring).
Arguments Ok {A} v.
Arguments Err {A} e.

(** Values stored in the multistep state bag (an interface{} map). *)
Inductive value :=
  | VStr (s : gostring)                          (* string *)
  | VStrs (l : list gostring)                    (* []string *)
  | VCmds (m : gmap gostring (list gostring))    (* map[string][]string *)
  | VErr (msg : gostring)                        (* error *)
  | VDriver                                      (* the Driver handle *)
  | VUi                                          (* the packersdk.Ui *)
  | VOther.                                      (* any other value *)

(** multistep.StepDownload, the SDK step the guest-additions step
    delegates the fetch to. *)
Record StepDownload := mkStepDownload {
  Checksum : gostring;
  Description : gostring;
  ResultKey : gostring;
  TargetPath : gostring;
  Url : list gostring;
  Extension : gostring
}.

(** Observable effects of a step: driver calls and fetches. *)
Inductive event :=
  | EOsa (args : list gostring) (r : res gostring)
                                     (* driver.ExecuteOsaScript(args...) and its answer *)
  | EVersion                         (* driver.Version() *)
  | EGuestToolsIsoPath               (* driver.GuestToolsIsoPath() *)
  | EDownload (d : StepDownload).    (* (&commonsteps.StepDownload{..}).Run *)

Record world := mkWorld {
  bag : gmap gostring value;
  trace : list event
}.

(** The Driver interface; each answer may depend on the calls made so
    far. *)
Record Driver := mkDriver {
  ExecuteOsaScript : list event -> list gostring -> res gostring;
  Version : list event -> res gostring;
  GuestToolsIsoPath : list event -> res gostring
}.

(** Library functions outside this repository's core, and
    GetControllerEnumCode, left arbitrary: filepath.IsAbs, filepath.Abs,
    filepath.EvalSymlinks, interpolate.Render (template, Version field)
    and the run of the SDK download step on the state bag. *)
Record Host := mkHost {
  IsAbs : gostring -> bool;
  Abs : gostring -> res gostring;
  EvalSymlinks : gostring -> res gostring;
  GetControllerEnumCode : gostring -> res gostring;
  Render : gostring -> gostring -> res gostring;
  DownloadRun : StepDownload -> gmap gostring value -> StepAction * gmap gostring value
}.

(** state.Get(k).(string); a missing or mistyped value panics (None). *)
Definition get_string (b : gmap gostring value) (k : gostring) : option gostring :=
  match b !! k with Some (VStr s) => Some s | _ => None end.

(** state.Get("driver").(Driver) and state.Get("ui").(packersdk.Ui) *)
Definition has_driver (b : gmap gostring value) : bool :=
  match b !! lit "driver" with Some VDriver => true | _ => false end.

Definition has_ui (b : gmap gostring value) : bool :=
  match b !! lit "ui" with Some VUi => true | _ => false end.

(** state.Put(k, v) *)
Definition put (k : gostring) (v : value) (w : world) : world :=
  mkWorld (<[k := v]> (bag w)) (trace w).

(** driver.ExecuteOsaScript(args...): the call is recorded, the answer
    comes from the driver. *)
Definition osa (d : Driver) (args : list gostring) (w : world) : res gostring * world :=
  let r := ExecuteOsaScript d (trace w) args in (r, mkWorld (bag w) (trace w ++ [EOsa args r])).

(** The arguments of a recorded driver script call. *)
Definition osa_args (e : event) : option (list gostring) :=
  match e with EOsa a _ => Some a | _ => None end.

(* ------------------------------------------------------------------ *)
(** * QemuConfig.Prepare *)

Record QemuConfig := mkQemuConfig { QemuArgs : list (list gostring) }.

(** fmt.Errorf("qemuargs[%d]: empty argument list", i) and
    fmt.Errorf("qemuargs[%d]: argument resolves to empty string", i) *)
Inductive qemu_error :=
  | EmptyArgumentList (i : nat)
  | ResolvesToEmpty (i : nat).

Definition qemu_error_index (e : qemu_error) : nat :=
  match e with EmptyArgumentList i | ResolvesToEmpty i => i end.

(** for i, args := range c.QemuArgs { ... } *)
Fixpoint prepare_from (i : nat) (groups : list (list gostring)) : list qemu_error :=
  match groups with
  | [] => []
  | args :: rest =>
      if length args =? 0 then EmptyArgumentList i :: prepare_from (S i) rest
      else
        let joined := Join args (lit " ") in
        if bool_decide (TrimSpace joined = []) then ResolvesToEmpty i :: prepare_from (S i) rest
        else prepare_from (S i) rest
  end.

Definition Prepare (c : QemuConfig) : list qemu_error := prepare_from 0 (QemuArgs c).

(* ------------------------------------------------------------------ *)
(** * StepConfigureQemuArgs *)

Record StepConfigureQemuArgs := mkStepConfigureQemuArgs { SQemuArgs : list (list gostring) }.

Definition configure_qemu_run (d : Driver) (s : StepConfigureQemuArgs) (w : world)
  : option (StepAction * world) :=
  if length (SQemuArgs s) =? 0 then Some (ActionContinue, w) else
  if negb (has_driver (bag w)) then None else
  if negb (has_ui (bag w)) then None else
  match get_string (bag w) (lit "vmId") with
  | None => None
  | Some vmId =>
      let qemuArgStrings := map (fun args => Join args (lit " ")) (SQemuArgs s) in
      let addQemuArgsCommand :=
        [lit "add_qemu_additional_args.applescript"; vmId; lit "--args"] ++ qemuArgStrings in
      let (r, w1) := osa d addQemuArgsCommand w in
      match r with
      | Err e =>
          Some (ActionHalt,
                put (lit "error") (VErr (lit "error adding user QEMU additional arguments: " ++ e)) w1)
      | Ok _ => Some (ActionContinue, put (lit "userQemuArgs") (VStrs qemuArgStrings) w1)
      end
  end.

(* ------------------------------------------------------------------ *)
(** * StepAttachISOs *)

(** Modelled from the spec: the guest-additions mode constants
    GuestAdditionsModeAttach and GuestAdditionsModeDisable, declared
    outside the sources (mode enum {disabled, upload, attach}). *)
Definition GuestAdditionsModeAttach : gostring := lit "attach".
Definition GuestAdditionsModeDisable : gostring := lit "disabled".

Record StepAttachISOs := mkStepAttachISOs {
  AttachBootISO : bool;
  ISOInterface : gostring;
  GuestAdditionsMode : gostring;
  GuestAdditionsInterface : gostring
}.

(** The step's diskUnmountCommands field. *)
Abbreviation unmount_table := (gmap gostring (list gostring)).

Record diskToMount := mkDiskToMount { category : gostring; isoPath : gostring }.

Definition res_map {A B} (f : A -> B) (r : res A) : res B :=
  match r with Ok a => Ok (f a) | Err e => Err e end.

(** Chaining for code that may panic (None) or halt with an error. *)
Definition step_bind {A B} (c : option (res A)) (k : A -> option (res B)) : option (res B) :=
  match c with
  | None => None
  | Some (Err e) => Some (Err e)
  | Some (Ok a) => k a
  end.
Notation "'let*' x := c 'in' k" := (step_bind c (fun x => k))
  (at level 200, x name, c at level 100, k at level 200).

(** if !filepath.IsAbs(p) { absPath, err := filepath.Abs(p); ... } *)
Definition absolutize (h : Host) (what p : gostring) : res gostring :=
  if IsAbs h p then Ok p else
  match Abs h p with
  | Ok a => Ok a
  | Err e => Err (lit "error converting " ++ what ++ lit " to absolute path: " ++ e)
  end.

(** Building disksToMount: boot ISO, then cd_files, then guest additions. *)
Definition collect_disks (h : Host) (s : StepAttachISOs) (b : gmap gostring value)
  : option (res (list diskToMount)) :=
  let* boot :=
    (if AttachBootISO s then
       match get_string b (lit "iso_path") with
       | None => None
       | Some p => Some (res_map (fun a => [mkDiskToMount (lit "boot_iso") a])
                                 (absolutize h (lit "iso_path") p))
       end
     else Some (Ok [])) in
  let* cd :=
    (match b !! lit "cd_path" with
     | None => Some (Ok [])
     | Some (VStr p) => Some (res_map (fun a => [mkDiskToMount (lit "cd_files") a])
                                      (absolutize h (lit "cd_path") p))
     | Some _ => None
     end) in
  let* ga :=
    (if bool_decide (GuestAdditionsMode s <> GuestAdditionsModeAttach) then Some (Ok [])
     else
       match get_string b (lit "guest_additions_path") with
       | None => None
       | Some p => Some (res_map (fun a => [mkDiskToMount (lit "guest_additions") a])
                                 (absolutize h (lit "guest_additions_path") p))
       end) in
  Some (Ok (boot ++ cd ++ ga)).

(** switch diskCategory { ... } *)
Definition controller_name (s : StepAttachISOs) (cat : gostring) : gostring :=
  if bool_decide (cat = lit "boot_iso") then ISOInterface s
  else if bool_decide (cat = lit "guest_additions") then GuestAdditionsInterface s
  else if bool_decide (cat = lit "cd_files") then lit "usb"
  else [].

(** The loop body up to the attach call: resolve symlinks, pick the
    controller and build the attach command. *)
Definition prepare_attach (h : Host) (s : StepAttachISOs) (vmId : gostring) (disk : diskToMount)
  : res (list gostring) :=
  match EvalSymlinks h (isoPath disk) with
  | Err e => Err (lit "error resolving symlink for ISO: " ++ e)
  | Ok p =>
      match GetControllerEnumCode h (controller_name s (category disk)) with
      | Err e => Err e
      | Ok code =>
          Ok [lit "attach_iso.applescript"; vmId; lit "--interface"; code; lit "--source"; p]
      end
  end.

(** regexp.MustCompile(`[0-9a-fA-F-]{36}`).FindStringSubmatch(output)[0]:
    the leftmost run of 36 characters of the class. *)
Definition uuid_class (r : rune) : bool :=
  ((48 <=? r) && (r <=? 57))%N || ((97 <=? r) && (r <=? 102))%N
  || ((65 <=? r) && (r <=? 70))%N || (r =? 45)%N.

Fixpoint find_uuid (output : gostring) : option gostring :=
  match output with
  | [] => None
  | _ :: rest =>
      if (36 <=? length output) && forallb uuid_class (take 36 output)
      then Some (take 36 output)
      else find_uuid rest
  end.

Fixpoint attach_loop (h : Host) (d : Driver) (s : StepAttachISOs) (vmId : gostring)
    (disks : list diskToMount) (cmds : unmount_table) (w : world)
  : StepAction * unmount_table * world :=
  match disks with
  | [] => (ActionContinue, cmds, w)
  | disk :: rest =>
      match prepare_attach h s vmId disk with
      | Err e => (ActionHalt, cmds, put (lit "error") (VErr e) w)
      | Ok command =>
          let (r, w1) := osa d command w in
          match r with
          | Err e => (ActionHalt, cmds, put (lit "error") (VErr (lit "error attaching ISO: " ++ e)) w1)
          | Ok output =>
              match find_uuid output with
              | Some uuid =>
                  attach_loop h d s vmId rest
                    (<[category disk := [lit "remove_drive.applescript"; vmId; uuid]]> cmds) w1
              | None =>
                  (ActionHalt, cmds,
                   put (lit "error") (VErr (lit "error extracting UUID from output: " ++ output)) w1)
              end
          end
      end
  end.

(** StepAttachISOs.Run; also returns the diskUnmountCommands field as
    the run leaves it.  None is a panic of a type assertion. *)
Definition attach_run (h : Host) (d : Driver) (s : StepAttachISOs) (w : world)
  : option (StepAction * unmount_table * world) :=
  if negb (has_ui (bag w)) then None else
  match collect_disks h s (bag w) with
  | None => None
  | Some (Err e) => Some (ActionHalt, ∅, put (lit "error") (VErr e) w)
  | Some (Ok []) => Some (ActionContinue, ∅, w)
  | Some (Ok disks) =>
      if negb (has_driver (bag w)) then None else
      match get_string (bag w) (lit "vmId") with
      | None => None
      | Some vmId =>
          match attach_loop h d s vmId disks ∅ w with
          | (ActionContinue, cmds, w') =>
              Some (ActionContinue, cmds, put (lit "disk_unmount_commands") (VCmds cmds) w')
          | (ActionHalt, cmds, w') => Some (ActionHalt, cmds, w')
          end
      end
  end.

(** for _, command := range s.diskUnmountCommands { ... }: [ord] is the
    (unspecified) iteration order Go picks; failures are only logged. *)
Fixpoint detach_all (d : Driver) (ord : list (gostring * list gostring)) (w : world) : world :=
  match ord with
  | [] => w
  | (_, command) :: rest => let (_, w1) := osa d command w in detach_all d rest w1
  end.

(** StepAttachISOs.Cleanup *)
Definition attach_cleanup (d : Driver) (cmds : unmount_table)
    (ord : list (gostring * list gostring)) (w : world) : option world :=
  if size cmds =? 0 then Some w else
  if negb (has_driver (bag w)) then None else
  match bag w !! lit "detached_isos" with
  | Some _ => Some w
  | None => Some (detach_all d ord w)
  end.

(** An attach call the loop accepts: the driver answered without error
    and the output holds a UUID. *)
Definition attach_ok (e : event) : Prop :=
  exists c out u, e = EOsa c (Ok out) /\ find_uuid out = Some u.

(** An attach answer the loop rejects: a driver error, or an output with
    no UUID in it. *)
Definition attach_failed (r : res gostring) : Prop :=
  (exists e, r = Err e) \/ (exists out, r = Ok out /\ find_uuid out = None).

(* ------------------------------------------------------------------ *)
(** * StepDownloadGuestAdditions *)

Definition additionsVersionMap : gmap gostring gostring := {[ lit "4.6.4" := lit "0.229.2" ]}.

(** if newVersion, ok := additionsVersionMap[version]; ok { version = newVersion } *)
Definition resolve_version (version : gostring) : gostring :=
  match additionsVersionMap !! version with Some v => v | None => version end.

Record StepDownloadGuestAdditions := mkStepDownloadGuestAdditions {
  DGuestAdditionsMode : gostring;
  GuestAdditionsURL : gostring;
  GuestAdditionsSHA256 : gostring;
  GuestAdditionsTargetPath : gostring
}.

(** fmt.Sprintf("utm-guest-tools-%s.iso", "latest") *)
Definition additionsName : gostring := lit "utm-guest-tools-" ++ lit "latest" ++ lit ".iso".

Definition default_additions_url : gostring := lit "https://getutm.app/downloads/" ++ additionsName.

Definition no_url_error : gostring :=
  lit "couldn't detect guest additions URL." ++ [10%N]
  ++ lit "Please specify `guest_additions_url` manually".

(** driver.Version() and driver.GuestToolsIsoPath() *)
Definition version_call (d : Driver) (w : world) : res gostring * world :=
  (Version d (trace w), mkWorld (bag w) (trace w ++ [EVersion])).

Definition guest_tools_call (d : Driver) (w : world) : res gostring * world :=
  (GuestToolsIsoPath d (trace w), mkWorld (bag w) (trace w ++ [EGuestToolsIsoPath])).

Definition download_run (h : Host) (d : Driver) (s : StepDownloadGuestAdditions) (w : world)
  : option (StepAction * world) :=
  if negb (has_driver (bag w)) then None else
  if negb (has_ui (bag w)) then None else
  if bool_decide (DGuestAdditionsMode s = GuestAdditionsModeDisable) then Some (ActionContinue, w) else
  let (vr, w1) := version_call d w in
  match vr with
  | Err e =>
      Some (ActionHalt,
            put (lit "error") (VErr (lit "error reading version for guest additions download: " ++ e)) w1)
  | Ok version0 =>
      let version := resolve_version version0 in
      match Render h (GuestAdditionsURL s) version with
      | Err e =>
          Some (ActionHalt, put (lit "error") (VErr (lit "error preparing guest additions url: " ++ e)) w1)
      | Ok url0 =>
          let '(url, checksumType, w2) :=
            (if bool_decide (url0 = []) then
               let (gr, w2) := guest_tools_call d w1 in
               match gr with
               | Ok p => (p, lit "none", w2)
               | Err _ => (default_additions_url, lit "sha256", w2)
               end
             else (url0, lit "sha256", w1)) in
          if bool_decide (url = []) then Some (ActionHalt, put (lit "error") (VErr no_url_error) w2) else
          let '(checksum, checksumType) :=
            (if bool_decide (checksumType <> lit "none") then
               if bool_decide (GuestAdditionsSHA256 s <> []) then (GuestAdditionsSHA256 s, checksumType)
               else ([], lit "none")
             else ([], checksumType)) in
          let checksumWithType :=
            (if bool_decide (checksumType <> lit "none") && bool_decide (checksum <> [])
             then checksumType ++ lit ":" ++ checksum else checksum) in
          let downStep := mkStepDownload checksumWithType (lit "Guest additions")
                            (lit "guest_additions_path") (GuestAdditionsTargetPath s) [url] (lit "iso") in
          let (act, b') := DownloadRun h downStep (bag w2) in
          Some (act, mkWorld b' (trace w2 ++ [EDownload downStep]))
      end
  end.

(* ------------------------------------------------------------------ *)
(** * Predicates used in the statements *)

Definition all_space (s : gostring) : Prop := Forall (fun r => IsSpace r = true) s.

(** A group Prepare reports: empty, or joined text that trims to "". *)
Definition bad_group (g : list gostring) : bool :=
  (length g =? 0) || bool_decide (TrimSpace (Join g (lit " ")) = []).

Definition bad_at (gs : list (list gostring)) (k : nat) : bool :=
  match gs !! k with Some g => bad_group g | None => false end.

(* ------------------------------------------------------------------ *)
(** * Concrete fixtures *)

(** A driver whose every call succeeds. *)
Definition drv_ok : Driver :=
  mkDriver (fun _ _ => Ok (lit "ok")) (fun _ => Ok (lit "4.6.4")) (fun _ => Ok (lit "/tools.iso")).

(** A state bag holding the driver, the ui and a VM id. *)
Definition bag0 : gmap gostring value :=
  <[lit "driver" := VDriver]> (<[lit "ui" := VUi]> (<[lit "vmId" := VStr (lit "vm-1")]> ∅)).

Definition w0 : world := mkWorld bag0 [].

Definition qemu_step_accel : StepConfigureQemuArgs :=
  mkStepConfigureQemuArgs [[lit "-accel"; lit "hvf"]; [lit "-cpu"; lit "host"]].

(** Host fixtures: paths already absolute, symlinks resolved to
    themselves, every controller known, an empty rendered URL, and a
    download that continues. *)
Definition host0 : Host :=
  mkHost (fun _ => true) (fun p => Ok p) (fun p => Ok p) (fun _ => Ok (lit "0"))
         (fun _ _ => Ok []) (fun _ b => (ActionContinue, b)).

Definition ga_step (mode : gostring) : StepDownloadGuestAdditions :=
  mkStepDownloadGuestAdditions mode [] (lit "abc") [].

(* ------------------------------------------------------------------ *)
(** * Proof tactics *)

(** Settle the string comparisons between literals. *)
Ltac decide_lits :=
  repeat match goal with
  | |- context [bool_decide (?a <> ?b)] =>
      first [ rewrite (bool_decide_eq_false_2 (a <> b)) by (intros Hx; apply Hx; reflexivity)
            | rewrite (bool_decide_eq_true_2 (a <> b)) by (vm_compute; congruence) ]
  end; cbn -[lit].

(** Case on the result of the delegated download step. *)
Ltac destruct_download :=
  match goal with
  | |- context [DownloadRun ?h ?ds ?b] => destruct (DownloadRun h ds b) as [act b']
  end.

(** Finish a run of the guest-additions step once the URL is known. *)
Ltac shape_fin mid :=
  case_bool_decide as Hurl;
  [ let Hr := fresh "Hr" in intros Hr; injection Hr as <- <-; left; exists no_url_error, mid;
    split; [reflexivity|]; split; [auto|]; unfold put; cbn [bag trace];
    rewrite <- ?app_assoc; reflexivity
  | repeat case_bool_decide; cbv beta iota zeta; cbn [bag trace];
    match goal with |- context [DownloadRun ?h ?ds ?b] =>
      destruct (DownloadRun h ds b) as [a0 b0] eqn:Hdl end;
    let Hr := fresh "Hr" in intros Hr; injection Hr as <- <-; right; eexists _, mid, _;
    split; [auto|]; split; [cbn [trace]; rewrite <- ?app_assoc; reflexivity|];
    split; [reflexivity|]; split; assumption ].

(* ------------------------------------------------------------------ *)
(** * Fixtures for StepAttachISOs *)

Definition uuid_txt : gostring := lit "123e4567-e89b-12d3-a456-426614174000".
Definition zeros36 : gostring := repeat (N_of_ascii "0"%char) 36.

(** Drivers answering every script with a canonical UUID, with 36 zeros,
    or failing from the second call on. *)
Definition drv_uuid : Driver :=
  mkDriver (fun _ _ => Ok uuid_txt) (fun _ => Ok (lit "4.6.4")) (fun _ => Ok []).
Definition drv_zeros : Driver :=
  mkDriver (fun _ _ => Ok zeros36) (fun _ => Ok (lit "4.6.4")) (fun _ => Ok []).
Definition drv_fail2 : Driver :=
  mkDriver (fun hist _ => if length hist =? 0 then Ok uuid_txt else Err (lit "boom"))
           (fun _ => Ok (lit "4.6.4")) (fun _ => Ok []).

Definition attach_all : StepAttachISOs :=
  mkStepAttachISOs true (lit "virtio") GuestAdditionsModeAttach (lit "usb").
Definition attach_none : StepAttachISOs :=
  mkStepAttachISOs false (lit "virtio") (lit "upload") (lit "usb").

Definition bag_isos : gmap gostring value :=
  <[lit "iso_path" := VStr (lit "/b.iso")]>
  (<[lit "cd_path" := VStr (lit "/c.iso")]>
   (<[lit "guest_additions_path" := VStr (lit "/g.iso")]> bag0)).
Definition w_isos : world := mkWorld bag_isos [].

Definition attach_cmd (code path : gostring) : list gostring :=
  [lit "attach_iso.applescript"; lit "vm-1"; lit "--interface"; code; lit "--source"; path].

(** The categories that apply, in the fixed order boot ISO, cd_files,
    guest additions. *)
Definition applicable (s : StepAttachISOs) (b : gmap gostring value) : list gostring :=
  (if AttachBootISO s then [lit "boot_iso"] else [])
  ++ (if bool_decide (is_Some (b !! lit "cd_path")) then [lit "cd_files"] else [])
  ++ (if bool_decide (GuestAdditionsMode s = GuestAdditionsModeAttach) then [lit "guest_additions"] else []).

Definition cmds_two : unmount_table :=
  <[lit "boot_iso" := [lit "remove_drive.applescript"; lit "vm-1"; uuid_txt]]>
  {[lit "cd_files" := [lit "remove_drive.applescript"; lit "vm-1"; zeros36]]}.

(** The reversal table after attaching all three ISOs with [drv_uuid]. *)
Definition table_all : unmount_table :=
  <[lit "boot_iso" := [lit "remove_drive.applescript"; lit "vm-1"; uuid_txt]]>
  (<[lit "cd_files" := [lit "remove_drive.applescript"; lit "vm-1"; uuid_txt]]>
   {[lit "guest_additions" := [lit "remove_drive.applescript"; lit "vm-1"; uuid_txt]]}).

Definition world_all : world :=
  mkWorld (<[lit "disk_unmount_commands" := VCmds table_all]> bag_isos)
          [EOsa (attach_cmd (lit "0") (lit "/b.iso")) (Ok uuid_txt);
           EOsa (attach_cmd (lit "0") (lit "/c.iso")) (Ok uuid_txt);
           EOsa (attach_cmd (lit "0") (lit "/g.iso")) (Ok uuid_txt)].

(** A state bag carrying the "detached_isos" marker. *)
Definition w_marked : world := mkWorld (<[lit "detached_isos" := VOther]> bag_isos) [].

(* ------------------------------------------------------------------ *)
(** * The canonical UUID form *)

(** The canonical textual UUID form, 8-4-4-4-12 hex digits (a
    definition from the spec's words, to compare with [find_uuid]). *)
Definition hex_digit (r : rune) : bool :=
  ((48 <=? r) && (r <=? 57))%N || ((97 <=? r) && (r <=? 102))%N || ((65 <=? r) && (r <=? 70))%N.

Definition is_canonical_uuid (t : gostring) : bool :=
  (length t =? 36)
  && forallb (fun '(i, r) => if (i =? 8) || (i =? 13) || (i =? 18) || (i =? 23)
                             then (r =? 45)%N else hex_digit r)
             (zip (seq 0 36) t).

Definition contains_canonical_uuid (s : gostring) : bool :=
  existsb (fun i => is_canonical_uuid (take 36 (drop i s))) (seq 0 (length s)).

(* ------------------------------------------------------------------ *)
(** * Further predicates and fixtures *)

(** A run of 36 characters of the UUID class starting at position [i]
    of the driver output. *)
Definition uuid_window (out : gostring) (i : nat) : bool :=
  (i + 36 <=? length out) && forallb uuid_class (take 36 (drop i out)).

(** The state-bag key each ISO category's path is read from. *)
Definition iso_state_key (cat : gostring) : gostring :=
  if bool_decide (cat = lit "boot_iso") then lit "iso_path"
  else if bool_decide (cat = lit "cd_files") then lit "cd_path"
  else lit "guest_additions_path".

(** A Prepare error with its group index moved up by [k]. *)
Definition qemu_error_shift (k : nat) (e : qemu_error) : qemu_error :=
  match e with
  | EmptyArgumentList i => EmptyArgumentList (k + i)
  | ResolvesToEmpty i => ResolvesToEmpty (k + i)
  end.

(** A driver whose every script call fails, and one whose version
    query fails. *)
Definition drv_err : Driver :=
  mkDriver (fun _ _ => Err (lit "applescript failed")) (fun _ => Ok (lit "4.6.4")) (fun _ => Ok []).
Definition drv_noversion : Driver :=
  mkDriver (fun _ _ => Ok (lit "ok")) (fun _ => Err (lit "no utm")) (fun _ => Ok []).

(** Paths given relative in the state bag, made absolute under "/w". *)
Definition host_rel : Host :=
  mkHost (fun p => bool_decide (head p = Some 47%N)) (fun p => Ok (lit "/w/" ++ p))
         (fun p => Ok p) (fun _ => Ok (lit "0")) (fun _ _ => Ok []) (fun _ b => (ActionContinue, b)).

Definition bag_rel : gmap gostring value :=
  <[lit "iso_path" := VStr (lit "b.iso")]>
  (<[lit "cd_path" := VStr (lit "/c.iso")]>
   (<[lit "guest_additions_path" := VStr (lit "g.iso")]> bag0)).

(* ================================================================== *)
(** * Proofs *)

Example join_accel : Join [lit "-accel"; lit "hvf"] (lit " ") = lit "-accel hvf".
Proof. reflexivity. Qed.

Example prepare_ws : Prepare (mkQemuConfig [[lit " "; lit "  "]]) = [ResolvesToEmpty 0].
Proof. vm_compute. reflexivity. Qed.

Example prepare_empty_inner : Prepare (mkQemuConfig [[]]) = [EmptyArgumentList 0].
Proof. reflexivity. Qed.

Example prepare_valid :
  Prepare (mkQemuConfig [[lit "-accel"; lit "hvf"]; [lit "-cpu"; lit "host"]]) = [].
Proof. vm_compute. reflexivity. Qed.

(* ------------------------------------------------------------------ *)
(** * Whitespace trimming *)

Lemma TrimLeftFunc_nil_iff (s : gostring) (f : rune -> bool) :
  TrimLeftFunc s f = [] <-> Forall (fun r => f r = true) s.
Proof.
  induction s as [|r s IH]; simpl.
  - split; auto.
  - destruct (f r) eqn:Hf.
    + rewrite IH. split; [intros; constructor; auto | intros H; inversion H; auto].
    + split; [discriminate | intros H; inversion H; congruence].
Qed.

Lemma TrimLeftFunc_head (s : gostring) (f : rune -> bool) :
  TrimLeftFunc s f = [] \/ exists r t, TrimLeftFunc s f = r :: t /\ f r = false.
Proof.
  induction s as [|r s IH]; simpl; [auto|].
  destruct (f r) eqn:Hf; [exact IH | right; eauto].
Qed.

Lemma TrimSpace_nil_iff (s : gostring) : TrimSpace s = [] <-> all_space s.
Proof.
  unfold TrimSpace, TrimRightFunc, all_space.
  rewrite <- TrimLeftFunc_nil_iff.
  split.
  - intros H. apply (f_equal (@rev rune)) in H. rewrite rev_involutive in H. simpl in H.
    apply TrimLeftFunc_nil_iff in H. apply Forall_rev in H. rewrite rev_involutive in H.
    destruct (TrimLeftFunc_head s IsSpace) as [Hn | (r & t & Ht & Hr)]; [exact Hn|].
    rewrite Ht in H. inversion H. congruence.
  - intros H. rewrite H. reflexivity.
Qed.

(* ------------------------------------------------------------------ *)
(** * Prepare, per argument group *)

Lemma prepare_from_index (i : nat) (gs : list (list gostring)) :
  map qemu_error_index (prepare_from i gs)
  = List.filter (fun j => bad_at gs (j - i)) (seq i (length gs)).
Proof.
  revert i. induction gs as [|g gs IH]; intros i; [reflexivity|].
  simpl length. rewrite <- cons_seq. cbn [List.filter].
  rewrite Nat.sub_diag. unfold bad_at at 1. simpl lookup.
  assert (Hrest : List.filter (fun j => bad_at (g :: gs) (j - i)) (seq (S i) (length gs))
                  = List.filter (fun j => bad_at gs (j - S i)) (seq (S i) (length gs))).
  { apply filter_ext_in. intros j Hj. apply in_seq in Hj.
    replace (j - i) with (S (j - S i)) by lia. reflexivity. }
  rewrite Hrest, <- IH. unfold bad_group. simpl.
  destruct (length g =? 0); simpl; [reflexivity|].
  case_bool_decide; reflexivity.
Qed.

Lemma prepare_from_nil_iff (i : nat) (gs : list (list gostring)) :
  prepare_from i gs = [] <-> Forall (fun g => bad_group g = false) gs.
Proof.
  revert i. induction gs as [|g gs IH]; intros i; simpl.
  - split; auto.
  - rewrite Forall_cons. unfold bad_group. rewrite orb_false_iff, bool_decide_eq_false.
    destruct (length g =? 0) eqn:Hl; simpl.
    + split; [discriminate | intros [[Hb _] _]; discriminate].
    + case_bool_decide.
      * split; [discriminate | intros [[_ Hb] _]; contradiction].
      * rewrite IH. tauto.
Qed.

Lemma bad_group_false_iff (g : list gostring) :
  bad_group g = false <-> g <> [] /\ exists r, In r (Join g (lit " ")) /\ IsSpace r = false.
Proof.
  unfold bad_group. rewrite orb_false_iff, Nat.eqb_neq, bool_decide_eq_false, TrimSpace_nil_iff.
  unfold all_space. rewrite List.Forall_forall.
  split.
  - intros [Hl Hs]. split; [intros ->; simpl in Hl; lia|].
    destruct (existsb (fun r => negb (IsSpace r)) (Join g (lit " "))) eqn:E.
    + apply existsb_exists in E as (r & Hr & Hn). exists r. split; [exact Hr|].
      destruct (IsSpace r); [discriminate | reflexivity].
    + exfalso. apply Hs. intros x Hx. destruct (IsSpace x) eqn:Ex; [reflexivity|].
      assert (Hex : existsb (fun r => negb (IsSpace r)) (Join g (lit " ")) = true).
      { apply existsb_exists. exists x. rewrite Ex. auto. }
      congruence.
  - intros [Hg (r & Hr & Hsp)]. split; [destruct g; simpl; congruence|].
    intros Hall. specialize (Hall r Hr). congruence.
Qed.

Example qemu_accel_joined :
  map (fun g => Join g (lit " ")) (SQemuArgs qemu_step_accel) = [lit "-accel hvf"; lit "-cpu host"].
Proof. reflexivity. Qed.

(* ------------------------------------------------------------------ *)
(** * Claims on StepConfigureQemuArgs and QemuConfig.Prepare *)

(** C7: for a non-empty argument-group list the step makes exactly one
    driver call, with the command name, the VM id, "--args" and one
    space-joined string per group in the original order; when that call
    succeeds the same joined strings are stored under "userQemuArgs". *)
Theorem configure_qemu_args_call (d : Driver) (s : StepConfigureQemuArgs) (w : world)
    (vmId : gostring) :
  SQemuArgs s <> [] ->
  has_driver (bag w) = true -> has_ui (bag w) = true ->
  get_string (bag w) (lit "vmId") = Some vmId ->
  exists act w',
    configure_qemu_run d s w = Some (act, w')
    /\ map osa_args (trace w') = map osa_args (trace w)
         ++ [Some ([lit "add_qemu_additional_args.applescript"; vmId; lit "--args"]
                   ++ map (fun g => Join g (lit " ")) (SQemuArgs s))]
    /\ (forall out,
          ExecuteOsaScript d (trace w) ([lit "add_qemu_additional_args.applescript"; vmId; lit "--args"]
                                        ++ map (fun g => Join g (lit " ")) (SQemuArgs s)) = Ok out ->
          act = ActionContinue
          /\ bag w' = <[lit "userQemuArgs" := VStrs (map (fun g => Join g (lit " ")) (SQemuArgs s))]> (bag w)).
Proof.
  intros Hne Hd Hu Hv. unfold configure_qemu_run.
  destruct (SQemuArgs s) as [|g gs] eqn:Hs; [congruence|]. simpl length. cbn iota beta.
  rewrite Hd, Hu, Hv. unfold osa. simpl.
  destruct (ExecuteOsaScript d (trace w) _) as [out|e] eqn:Hx.
  - eexists _, _. split; [reflexivity|]. split; [cbn [trace put]; rewrite List.map_app; reflexivity|].
    intros. split; reflexivity.
  - eexists _, _. split; [reflexivity|]. split; [cbn [trace put]; rewrite List.map_app; reflexivity|].
    intros out Hout. congruence.
Qed.

Lemma configure_qemu_args_call_witness :
  exists act w',
    configure_qemu_run drv_ok qemu_step_accel w0 = Some (act, w')
    /\ map osa_args (trace w') = map osa_args (trace w0)
         ++ [Some ([lit "add_qemu_additional_args.applescript"; lit "vm-1"; lit "--args"]
                   ++ map (fun g => Join g (lit " ")) (SQemuArgs qemu_step_accel))]
    /\ (forall out,
          ExecuteOsaScript drv_ok (trace w0)
            ([lit "add_qemu_additional_args.applescript"; lit "vm-1"; lit "--args"]
             ++ map (fun g => Join g (lit " ")) (SQemuArgs qemu_step_accel)) = Ok out ->
          act = ActionContinue
          /\ bag w' = <[lit "userQemuArgs" := VStrs (map (fun g => Join g (lit " ")) (SQemuArgs qemu_step_accel))]>
                        (bag w0)).
Proof.
  apply (configure_qemu_args_call drv_ok qemu_step_accel w0 (lit "vm-1")).
  - discriminate.
  - reflexivity.
  - reflexivity.
  - reflexivity.
Defined.

(** C8: for an empty argument-group list the step returns continue and
    leaves the world (state bag and driver calls) exactly as it was. *)
Theorem configure_qemu_args_empty (d : Driver) (s : StepConfigureQemuArgs) (w : world) :
  SQemuArgs s = [] -> configure_qemu_run d s w = Some (ActionContinue, w).
Proof. intros Hs. unfold configure_qemu_run. rewrite Hs. reflexivity. Qed.

Lemma configure_qemu_args_empty_witness :
  configure_qemu_run drv_ok (mkStepConfigureQemuArgs []) w0 = Some (ActionContinue, w0).
Proof. apply (configure_qemu_args_empty drv_ok (mkStepConfigureQemuArgs []) w0). reflexivity. Defined.

(** C10: Prepare reports exactly one error per argument group that is
    empty or whose space-joined text trims to "" (the error indices are
    exactly those groups, in order); it reports nothing iff every group
    is non-empty and joins to text with a non-whitespace rune; an empty
    outer list gives no error. *)
Theorem prepare_errors_per_group (c : QemuConfig) :
  map qemu_error_index (Prepare c)
    = List.filter (bad_at (QemuArgs c)) (seq 0 (length (QemuArgs c)))
  /\ (Prepare c = []
      <-> Forall (fun g => g <> [] /\ exists r, In r (Join g (lit " ")) /\ IsSpace r = false)
                 (QemuArgs c))
  /\ Prepare (mkQemuConfig []) = [].
Proof.
  split; [|split].
  - unfold Prepare. rewrite prepare_from_index.
    apply filter_ext. intros j. rewrite Nat.sub_0_r. reflexivity.
  - unfold Prepare. rewrite prepare_from_nil_iff.
    split; intros H; eapply Forall_impl; try exact H; intros g Hg; apply bad_group_false_iff; exact Hg.
  - reflexivity.
Qed.

(* ------------------------------------------------------------------ *)
(** * Claims on StepDownloadGuestAdditions *)

(** C9: with the mode set to "disabled" the step continues at once: no
    driver call (no version query), no fetch, state bag unchanged. *)
Theorem download_disabled_noop (h : Host) (d : Driver) (s : StepDownloadGuestAdditions) (w : world) :
  DGuestAdditionsMode s = GuestAdditionsModeDisable ->
  has_driver (bag w) = true -> has_ui (bag w) = true ->
  download_run h d s w = Some (ActionContinue, w).
Proof.
  intros Hm Hd Hu. unfold download_run. rewrite Hd, Hu. simpl.
  rewrite bool_decide_eq_true_2 by exact Hm. reflexivity.
Qed.

(** C5: once the version is read and the template renders to "", the
    step asks the driver for the default path; on a driver error the
    fetch uses the fixed default URL; on a non-empty path it fetches that
    path; on an empty path it halts with the "couldn't detect" error and
    no fetch.  A non-empty rendered URL is fetched as is, with no query,
    so the "couldn't detect" halt happens exactly in the empty-path case. *)
Theorem download_url_chain (h : Host) (d : Driver) (s : StepDownloadGuestAdditions) (w : world)
    (v0 url0 : gostring) :
  DGuestAdditionsMode s <> GuestAdditionsModeDisable ->
  has_driver (bag w) = true -> has_ui (bag w) = true ->
  Version d (trace w) = Ok v0 ->
  Render h (GuestAdditionsURL s) (resolve_version v0) = Ok url0 ->
  exists act w',
    download_run h d s w = Some (act, w')
    /\ (url0 <> [] ->
          exists ds, trace w' = trace w ++ [EVersion; EDownload ds] /\ Url ds = [url0])
    /\ (url0 = [] ->
          (forall e, GuestToolsIsoPath d (trace w ++ [EVersion]) = Err e ->
             exists ds, trace w' = trace w ++ [EVersion; EGuestToolsIsoPath; EDownload ds]
                        /\ Url ds = [default_additions_url])
          /\ (forall p, GuestToolsIsoPath d (trace w ++ [EVersion]) = Ok p -> p <> [] ->
             exists ds, trace w' = trace w ++ [EVersion; EGuestToolsIsoPath; EDownload ds]
                        /\ Url ds = [p])
          /\ (GuestToolsIsoPath d (trace w ++ [EVersion]) = Ok [] ->
             act = ActionHalt
             /\ w' = mkWorld (<[lit "error" := VErr no_url_error]> (bag w))
                             (trace w ++ [EVersion; EGuestToolsIsoPath]))).
Proof.
  intros Hm Hd Hu Hv Hr. unfold download_run. rewrite Hd, Hu. simpl.
  rewrite bool_decide_eq_false_2 by exact Hm. unfold version_call. rewrite Hv. simpl.
  rewrite Hr.
  destruct url0 as [|c url0].
  - rewrite bool_decide_eq_true_2 by reflexivity. unfold guest_tools_call. simpl.
    destruct (GuestToolsIsoPath d (trace w ++ [EVersion])) as [p|e] eqn:Hg.
    + destruct p as [|c p].
      * simpl. eexists _, _. split; [reflexivity|].
        split; [congruence|]. intros _.
        split; [intros; discriminate|]. split; [intros q Hq Hne; inversion Hq; subst; congruence|].
        intros _. split; [reflexivity|]. rewrite <- !app_assoc. reflexivity.
      * rewrite bool_decide_eq_false_2 by discriminate. decide_lits.
        destruct_download.
        eexists _, _. split; [reflexivity|]. split; [congruence|]. intros _.
        split; [intros; discriminate|].
        split; [|intros; discriminate].
        intros q Hq _. inversion Hq; subst. eexists. split; [simpl; rewrite <- !app_assoc; reflexivity | reflexivity].
    + rewrite bool_decide_eq_false_2 by (unfold default_additions_url; discriminate).
      decide_lits. case_bool_decide; destruct_download;
        (eexists _, _; split; [reflexivity|]; split; [congruence|]; intros _;
         split; [|split; intros; discriminate];
         intros e' _; eexists; split; [simpl; rewrite <- !app_assoc; reflexivity | reflexivity]).
  - rewrite bool_decide_eq_false_2 by discriminate. simpl.
    decide_lits. case_bool_decide; destruct_download;
      (eexists _, _; split; [reflexivity|]; split; [|intros; discriminate];
       intros _; eexists; split; [simpl; rewrite <- !app_assoc; reflexivity | reflexivity]).
Qed.

(** C6: the checksum handed to the fetch is "" (type none) when the URL
    came from the driver's successful default-path resolution, even with
    an operator checksum; otherwise it is "sha256:" followed by the
    operator checksum when one is given, and "" when none is. *)
Theorem download_checksum (h : Host) (d : Driver) (s : StepDownloadGuestAdditions) (w : world)
    (v0 url0 : gostring) :
  DGuestAdditionsMode s <> GuestAdditionsModeDisable ->
  has_driver (bag w) = true -> has_ui (bag w) = true ->
  Version d (trace w) = Ok v0 ->
  Render h (GuestAdditionsURL s) (resolve_version v0) = Ok url0 ->
  exists act w',
    download_run h d s w = Some (act, w')
    /\ ((url0 = [] /\ exists p, GuestToolsIsoPath d (trace w ++ [EVersion]) = Ok p /\ p <> []) ->
          exists pre ds, trace w' = pre ++ [EDownload ds] /\ Checksum ds = [])
    /\ ((url0 <> [] \/ exists e, url0 = [] /\ GuestToolsIsoPath d (trace w ++ [EVersion]) = Err e) ->
          exists pre ds, trace w' = pre ++ [EDownload ds]
            /\ Checksum ds = (if bool_decide (GuestAdditionsSHA256 s = []) then []
                              else lit "sha256:" ++ GuestAdditionsSHA256 s)).
Proof.
  intros Hm Hd Hu Hv Hr. unfold download_run. rewrite Hd, Hu. simpl.
  rewrite bool_decide_eq_false_2 by exact Hm. unfold version_call. rewrite Hv. simpl.
  rewrite Hr.
  destruct url0 as [|c url0].
  - rewrite bool_decide_eq_true_2 by reflexivity. unfold guest_tools_call. simpl.
    destruct (GuestToolsIsoPath d (trace w ++ [EVersion])) as [p|e] eqn:Hg.
    + destruct p as [|c p].
      * simpl. eexists _, _. split; [reflexivity|].
        split.
        -- intros [_ (q & Hq & Hne)]. inversion Hq; subst. congruence.
        -- intros [Hc | (e & _ & He)]; [congruence | discriminate].
      * rewrite bool_decide_eq_false_2 by discriminate. decide_lits. destruct_download.
        eexists _, _. split; [reflexivity|]. split.
        -- intros _. eexists _, _. split; [reflexivity|]. reflexivity.
        -- intros [Hc | (e & _ & He)]; [congruence | discriminate].
    + rewrite bool_decide_eq_false_2 by (unfold default_additions_url; discriminate).
      decide_lits.
      case_bool_decide as Hsha; destruct_download;
        (eexists _, _; split; [reflexivity|]; split;
         [ intros [_ (q & Hq & _)]; discriminate
         | intros _; eexists _, _; split; [reflexivity|]; simpl ]).
      * rewrite (bool_decide_eq_true_2 (GuestAdditionsSHA256 s <> [])) by exact Hsha.
        rewrite (bool_decide_eq_false_2 (GuestAdditionsSHA256 s = [])) by exact Hsha. reflexivity.
      * rewrite (bool_decide_eq_true_2 (GuestAdditionsSHA256 s = [])) by exact Hsha. reflexivity.
  - rewrite bool_decide_eq_false_2 by discriminate. simpl.
    decide_lits.
    case_bool_decide as Hsha; destruct_download;
      (eexists _, _; split; [reflexivity|]; split;
       [ intros [Hc _]; discriminate
       | intros _; eexists _, _; split; [reflexivity|]; simpl ]).
    + rewrite (bool_decide_eq_true_2 (GuestAdditionsSHA256 s <> [])) by exact Hsha.
      rewrite (bool_decide_eq_false_2 (GuestAdditionsSHA256 s = [])) by exact Hsha. reflexivity.
    + rewrite (bool_decide_eq_true_2 (GuestAdditionsSHA256 s = [])) by exact Hsha. reflexivity.
Qed.

Lemma download_disabled_noop_witness :
  download_run host0 drv_ok (ga_step GuestAdditionsModeDisable) w0 = Some (ActionContinue, w0).
Proof. apply (download_disabled_noop host0 drv_ok (ga_step GuestAdditionsModeDisable) w0); reflexivity. Defined.

Lemma download_url_chain_witness :
  exists act w',
    download_run host0 drv_ok (ga_step GuestAdditionsModeAttach) w0 = Some (act, w')
    /\ (([] : gostring) <> [] ->
          exists ds, trace w' = trace w0 ++ [EVersion; EDownload ds] /\ Url ds = [[]])
    /\ (([] : gostring) = [] ->
          (forall e, GuestToolsIsoPath drv_ok (trace w0 ++ [EVersion]) = Err e ->
             exists ds, trace w' = trace w0 ++ [EVersion; EGuestToolsIsoPath; EDownload ds]
                        /\ Url ds = [default_additions_url])
          /\ (forall p, GuestToolsIsoPath drv_ok (trace w0 ++ [EVersion]) = Ok p -> p <> [] ->
             exists ds, trace w' = trace w0 ++ [EVersion; EGuestToolsIsoPath; EDownload ds]
                        /\ Url ds = [p])
          /\ (GuestToolsIsoPath drv_ok (trace w0 ++ [EVersion]) = Ok [] ->
             act = ActionHalt
             /\ w' = mkWorld (<[lit "error" := VErr no_url_error]> (bag w0))
                             (trace w0 ++ [EVersion; EGuestToolsIsoPath]))).
Proof.
  apply (download_url_chain host0 drv_ok (ga_step GuestAdditionsModeAttach) w0 (lit "4.6.4") []).
  - vm_compute. discriminate.
  - reflexivity.
  - reflexivity.
  - reflexivity.
  - reflexivity.
Defined.

Lemma download_checksum_witness :
  exists act w',
    download_run host0 drv_ok (ga_step GuestAdditionsModeAttach) w0 = Some (act, w')
    /\ ((([] : gostring) = [] /\ exists p, GuestToolsIsoPath drv_ok (trace w0 ++ [EVersion]) = Ok p /\ p <> []) ->
          exists pre ds, trace w' = pre ++ [EDownload ds] /\ Checksum ds = [])
    /\ ((([] : gostring) <> [] \/ exists e, ([] : gostring) = [] /\ GuestToolsIsoPath drv_ok (trace w0 ++ [EVersion]) = Err e) ->
          exists pre ds, trace w' = pre ++ [EDownload ds]
            /\ Checksum ds = (if bool_decide (GuestAdditionsSHA256 (ga_step GuestAdditionsModeAttach) = []) then []
                              else lit "sha256:" ++ GuestAdditionsSHA256 (ga_step GuestAdditionsModeAttach))).
Proof.
  apply (download_checksum host0 drv_ok (ga_step GuestAdditionsModeAttach) w0 (lit "4.6.4") []).
  - vm_compute. discriminate.
  - reflexivity.
  - reflexivity.
  - reflexivity.
  - reflexivity.
Defined.

(* ------------------------------------------------------------------ *)
(** * StepAttachISOs: the attach loop *)

Example attach_all_uuid :
  option_map (fun '(a, c, w') => (a, map_to_list c, map osa_args (trace w')))
    (attach_run host0 drv_uuid attach_all w_isos)
  = Some (ActionContinue,
          map_to_list (<[lit "boot_iso" := [lit "remove_drive.applescript"; lit "vm-1"; uuid_txt]]>
                       (<[lit "cd_files" := [lit "remove_drive.applescript"; lit "vm-1"; uuid_txt]]>
                        {[lit "guest_additions" := [lit "remove_drive.applescript"; lit "vm-1"; uuid_txt]]})),
          [Some (attach_cmd (lit "0") (lit "/b.iso")); Some (attach_cmd (lit "0") (lit "/c.iso"));
           Some (attach_cmd (lit "0") (lit "/g.iso"))]).
Proof. vm_compute. reflexivity. Qed.

Lemma collect_disks_categories (h : Host) (s : StepAttachISOs) (b : gmap gostring value)
    (ds : list diskToMount) :
  collect_disks h s b = Some (Ok ds) -> map category ds = applicable s b.
Proof.
  unfold collect_disks, applicable, step_bind, res_map.
  destruct (AttachBootISO s);
    [destruct (get_string b (lit "iso_path")) as [p|]; [destruct (absolutize h (lit "iso_path") p)|]|];
    try discriminate;
    (destruct (b !! lit "cd_path") as [[p'| | | | | |]|] eqn:Hcd;
     [destruct (absolutize h (lit "cd_path") p')| | | | | | | ]);
    try discriminate;
    (rewrite ?bool_decide_eq_true_2 by (eexists; reflexivity));
    (rewrite ?bool_decide_eq_false_2 by (intros [? ?]; discriminate));
    (destruct (decide (GuestAdditionsMode s = GuestAdditionsModeAttach)) as [Hm|Hm];
     [rewrite (bool_decide_eq_false_2 (GuestAdditionsMode s <> GuestAdditionsModeAttach)) by tauto;
      rewrite (bool_decide_eq_true_2 (GuestAdditionsMode s = GuestAdditionsModeAttach)) by exact Hm;
      destruct (get_string b (lit "guest_additions_path")) as [g|];
      [destruct (absolutize h (lit "guest_additions_path") g)|]
     |rewrite (bool_decide_eq_true_2 (GuestAdditionsMode s <> GuestAdditionsModeAttach)) by exact Hm;
      rewrite (bool_decide_eq_false_2 (GuestAdditionsMode s = GuestAdditionsModeAttach)) by exact Hm]);
    intros H; try discriminate; inversion H; subst; reflexivity.
Qed.

Lemma attach_loop_prefix (h : Host) (d : Driver) (s : StepAttachISOs) (vmId : gostring)
    (ds : list diskToMount) (cmds0 : unmount_table) (w : world)
    (act : StepAction) (cmds : unmount_table) (w' : world) :
  attach_loop h d s vmId ds cmds0 w = (act, cmds, w') ->
  exists k cs evs,
    Forall2 (fun disk c => prepare_attach h s vmId disk = Ok c) (firstn k ds) cs
    /\ trace w' = trace w ++ evs /\ map osa_args evs = map Some cs
    /\ (act = ActionContinue -> k = length ds).
Proof.
  revert cmds0 w. induction ds as [|disk rest IH]; intros cmds0 w Hl; simpl in Hl.
  - inversion Hl; subst. exists 0, [], []. rewrite app_nil_r. repeat split; auto.
  - destruct (prepare_attach h s vmId disk) as [command|e] eqn:Hp.
    + unfold osa in Hl. destruct (ExecuteOsaScript d (trace w) command) as [out|e] eqn:Hx.
      * destruct (find_uuid out) as [u|] eqn:Hu.
        -- apply IH in Hl as (k & cs & evs & HF & Ht & Hm & Hc).
           exists (S k), (command :: cs), (EOsa command (Ok out) :: evs).
           split; [simpl; constructor; assumption|].
           split; [rewrite Ht; simpl; rewrite <- app_assoc; reflexivity|].
           split; [simpl; f_equal; exact Hm|].
           intros Ha. simpl. f_equal. auto.
        -- inversion Hl; subst. exists 1, [command], [EOsa command (Ok out)].
           split; [simpl; constructor; auto|]. split; [reflexivity|]. split; [reflexivity|].
           discriminate.
      * inversion Hl; subst. exists 1, [command], [EOsa command (Err e)].
        split; [simpl; constructor; auto|]. split; [reflexivity|]. split; [reflexivity|].
        discriminate.
    + inversion Hl; subst. exists 0, [], []. rewrite app_nil_r.
      split; [constructor|]. split; [reflexivity|]. split; [reflexivity|]. discriminate.
Qed.

(** The loop only ever writes the "error" key of the state bag. *)
Lemma attach_loop_bag (h : Host) (d : Driver) (s : StepAttachISOs) (vmId : gostring)
    (ds : list diskToMount) (cmds0 : unmount_table) (w : world)
    (act : StepAction) (cmds : unmount_table) (w' : world) (k : gostring) :
  attach_loop h d s vmId ds cmds0 w = (act, cmds, w') ->
  k <> lit "error" -> bag w' !! k = bag w !! k.
Proof.
  intros Hl Hk. revert cmds0 w Hl. induction ds as [|disk rest IH]; intros cmds0 w Hl; simpl in Hl.
  - inversion Hl; subst. reflexivity.
  - unfold osa in Hl.
    destruct (prepare_attach h s vmId disk) as [command|e];
      [destruct (ExecuteOsaScript d (trace w) command) as [out|e];
       [destruct (find_uuid out) as [u|]|]|].
    + apply IH in Hl. exact Hl.
    + inversion Hl; subst. simpl. apply lookup_insert_ne. congruence.
    + inversion Hl; subst. simpl. apply lookup_insert_ne. congruence.
    + inversion Hl; subst. simpl. apply lookup_insert_ne. congruence.
Qed.

(** On a continuing loop every disk's category is in the table, and
    entries already there are kept. *)
Lemma attach_loop_continue (h : Host) (d : Driver) (s : StepAttachISOs) (vmId : gostring)
    (ds : list diskToMount) (cmds0 : unmount_table) (w : world)
    (cmds : unmount_table) (w' : world) :
  attach_loop h d s vmId ds cmds0 w = (ActionContinue, cmds, w') ->
  (forall c, is_Some (cmds0 !! c) -> is_Some (cmds !! c))
  /\ forall disk, In disk ds -> is_Some (cmds !! category disk).
Proof.
  revert cmds0 w. induction ds as [|disk rest IH]; intros cmds0 w Hl; simpl in Hl.
  - inversion Hl; subst. split; [auto | intros ? []].
  - unfold osa in Hl.
    destruct (prepare_attach h s vmId disk) as [command|e]; [|discriminate].
    destruct (ExecuteOsaScript d (trace w) command) as [out|e]; [|discriminate].
    destruct (find_uuid out) as [u|]; [|discriminate].
    apply IH in Hl as [Hkeep Hall]. split.
    + intros c Hc. apply Hkeep. rewrite lookup_insert.
      case_decide; [eexists; reflexivity | exact Hc].
    + intros disk' [<- | Hin]; [|auto].
      apply Hkeep. rewrite lookup_insert_eq. eexists; reflexivity.
Qed.

(** Every attach call whose output yields a UUID leaves its reversal
    command in the table (categories are distinct, so none is
    overwritten). *)
Lemma attach_loop_records (h : Host) (d : Driver) (s : StepAttachISOs) (vmId : gostring)
    (ds : list diskToMount) (cmds0 : unmount_table) (w : world)
    (act : StepAction) (cmds : unmount_table) (w' : world) :
  NoDup (map category ds) ->
  (forall disk, In disk ds -> cmds0 !! category disk = None) ->
  attach_loop h d s vmId ds cmds0 w = (act, cmds, w') ->
  (forall c v, cmds0 !! c = Some v -> cmds !! c = Some v)
  /\ forall evs, trace w' = trace w ++ evs ->
       forall a out u, In (EOsa a (Ok out)) evs -> find_uuid out = Some u ->
       exists c, cmds !! c = Some [lit "remove_drive.applescript"; vmId; u].
Proof.
  revert cmds0 w. induction ds as [|disk rest IH]; intros cmds0 w Hnd Hfresh Hl; simpl in Hl.
  - inversion Hl; subst. split; [auto|].
    intros evs Hevs. rewrite <- (app_nil_r (trace w')) in Hevs at 1.
    apply app_inv_head in Hevs. subst evs. intros ? ? ? [].
  - unfold osa in Hl. simpl in Hnd. apply NoDup_cons in Hnd as [Hnin Hnd].
    destruct (prepare_attach h s vmId disk) as [command|e].
    + destruct (ExecuteOsaScript d (trace w) command) as [out0|e] eqn:Hx.
      * destruct (find_uuid out0) as [u0|] eqn:Hu0.
        -- pose proof Hl as Hpre. apply attach_loop_prefix in Hpre as (k & cs & evs' & _ & Ht' & _ & _).
           apply IH in Hl as [Hkeep Hrec].
           ++ split.
              ** intros c v Hc. apply Hkeep. rewrite lookup_insert_ne; [exact Hc|].
                 intros <-. rewrite Hfresh in Hc by (left; reflexivity). discriminate.
              ** intros evs Hevs a out u Hin Hu.
                 simpl in Ht'. rewrite <- app_assoc in Ht'. rewrite Ht' in Hevs.
                 apply app_inv_head in Hevs. subst evs. destruct Hin as [Heq | Hin].
                 --- inversion Heq; subst. rewrite Hu0 in Hu. inversion Hu; subst.
                     exists (category disk). apply Hkeep. apply lookup_insert_eq.
                 --- apply (Hrec evs') with (a := a) (out := out); [|exact Hin|exact Hu].
                     simpl. rewrite <- app_assoc. exact Ht'.
           ++ exact Hnd.
           ++ intros disk' Hin. rewrite lookup_insert_ne.
              ** apply Hfresh. right. exact Hin.
              ** intros Heq. apply Hnin. rewrite Heq. apply list_elem_of_In, in_map. exact Hin.
        -- inversion Hl; subst. split; [auto|].
           intros evs Hevs. simpl in Hevs. apply app_inv_head in Hevs. subst evs.
           intros a out u [Heq | []] Hu. inversion Heq; subst. congruence.
      * inversion Hl; subst. split; [auto|].
        intros evs Hevs. simpl in Hevs. apply app_inv_head in Hevs. subst evs.
        intros a out u [Heq | []] Hu. discriminate.
    + inversion Hl; subst. split; [auto|].
      intros evs Hevs. simpl in Hevs. rewrite <- (app_nil_r (trace w)) in Hevs at 1.
      apply app_inv_head in Hevs. subst evs. intros ? ? ? [].
Qed.

(** detach_all makes one call per entry, in the given order, whatever
    each call answers, and never touches the state bag. *)
Lemma attach_loop_world (h : Host) (d : Driver) (s : StepAttachISOs) (vmId : gostring)
    (ds : list diskToMount) (cmds0 : unmount_table) (w : world)
    (act : StepAction) (cmds : unmount_table) (w' : world) :
  attach_loop h d s vmId ds cmds0 w = (act, cmds, w') ->
  (act = ActionContinue -> bag w' = bag w)
  /\ (act = ActionHalt -> exists msg, bag w' = <[lit "error" := VErr msg]> (bag w)).
Proof.
  revert cmds0 w. induction ds as [|disk rest IH]; intros cmds0 w Hl; simpl in Hl.
  - inversion Hl; subst. split; [reflexivity | discriminate].
  - unfold osa in Hl.
    destruct (prepare_attach h s vmId disk) as [command|e];
      [destruct (ExecuteOsaScript d (trace w) command) as [out|e];
       [destruct (find_uuid out) as [u|]|]|].
    + apply IH in Hl. exact Hl.
    + inversion Hl; subst. split; [discriminate|]. eexists. reflexivity.
    + inversion Hl; subst. split; [discriminate|]. eexists. reflexivity.
    + inversion Hl; subst. split; [discriminate|]. eexists. reflexivity.
Qed.

Lemma attach_loop_answers (h : Host) (d : Driver) (s : StepAttachISOs) (vmId : gostring)
    (ds : list diskToMount) (cmds0 : unmount_table) (w : world)
    (act : StepAction) (cmds : unmount_table) (w' : world) :
  attach_loop h d s vmId ds cmds0 w = (act, cmds, w') ->
  exists succ last,
    trace w' = trace w ++ succ ++ last /\ Forall attach_ok succ
    /\ (act = ActionContinue -> last = [] /\ length succ = length ds)
    /\ (act = ActionHalt -> length succ < length ds
          /\ (last = [] \/ exists c r, last = [EOsa c r] /\ attach_failed r)).
Proof.
  revert cmds0 w. induction ds as [|disk rest IH]; intros cmds0 w Hl; simpl in Hl.
  - inversion Hl; subst. exists [], []. simpl. rewrite app_nil_r.
    split; [reflexivity|]. split; [constructor|]. split; [auto|discriminate].
  - destruct (prepare_attach h s vmId disk) as [command|e] eqn:Hp.
    + unfold osa in Hl. destruct (ExecuteOsaScript d (trace w) command) as [out|e] eqn:Hx.
      * destruct (find_uuid out) as [u|] eqn:Hu.
        -- apply IH in Hl as (succ & last & Ht & HA & Hc & Hh).
           exists (EOsa command (Ok out) :: succ), last.
           split; [rewrite Ht; cbn [trace]; rewrite <- app_assoc; reflexivity|].
           split; [constructor; [exists command, out, u; auto | exact HA]|].
           split.
           ++ intros Ha. destruct (Hc Ha) as [Hl1 Hl2]. simpl. auto.
           ++ intros Ha. destruct (Hh Ha) as [Hl1 Hl2]. simpl. split; [lia | exact Hl2].
        -- inversion Hl; subst. exists [], [EOsa command (Ok out)].
           split; [reflexivity|]. split; [constructor|]. split; [discriminate|].
           intros _. split; [simpl; lia|]. right. exists command, (Ok out).
           split; [reflexivity|]. right. exists out. auto.
      * inversion Hl; subst. exists [], [EOsa command (Err e)].
        split; [reflexivity|]. split; [constructor|]. split; [discriminate|].
        intros _. split; [simpl; lia|]. right. exists command, (Err e).
        split; [reflexivity|]. left. exists e. reflexivity.
    + inversion Hl; subst. exists [], []. simpl. rewrite app_nil_r.
      split; [reflexivity|]. split; [constructor|]. split; [discriminate|].
      intros _. split; [lia | left; reflexivity].
Qed.

(** The answers of a whole run: a run either fails before the loop with
    no driver call, or its attach calls are accepted ones followed by at
    most one rejected call, the last thing the run does. *)
Lemma attach_run_answers (h : Host) (d : Driver) (s : StepAttachISOs) (w : world)
    (act : StepAction) (cmds : unmount_table) (w' : world) :
  attach_run h d s w = Some (act, cmds, w') ->
  (exists ds succ last,
     collect_disks h s (bag w) = Some (Ok ds)
     /\ trace w' = trace w ++ succ ++ last /\ Forall attach_ok succ
     /\ (act = ActionContinue -> last = [] /\ length succ = length ds)
     /\ (act = ActionHalt -> length succ < length ds
           /\ (last = [] \/ exists c r, last = [EOsa c r] /\ attach_failed r)))
  \/ (act = ActionHalt /\ trace w' = trace w
      /\ exists e, collect_disks h s (bag w) = Some (Err e)).
Proof.
  unfold attach_run. destruct (has_ui (bag w)); [|discriminate]. cbn [negb].
  destruct (collect_disks h s (bag w)) as [[ds|e]|] eqn:Hc; [| |discriminate].
  - destruct ds as [|disk rest].
    + intros H. inversion H; subst. left. exists [], [], []. simpl. rewrite app_nil_r.
      split; [reflexivity|]. split; [reflexivity|]. split; [constructor|].
      split; [auto|discriminate].
    + destruct (has_driver (bag w)); [|discriminate]. cbn [negb].
      destruct (get_string (bag w) (lit "vmId")) as [vmId|]; [|discriminate].
      destruct (attach_loop h d s vmId (disk :: rest) ∅ w) as [[a c] w2] eqn:Hl.
      apply attach_loop_answers in Hl as (succ & last & Ht & HA & Hk & Hh).
      intros H. left. exists (disk :: rest), succ, last.
      destruct a; inversion H; subst; (split; [reflexivity|]); cbn [put trace];
        (split; [exact Ht|]); (split; [exact HA|]); split; assumption.
  - intros H. inversion H; subst. right.
    split; [reflexivity|]. split; [reflexivity|]. exists e. reflexivity.
Qed.

Lemma detach_all_spec (d : Driver) (ord : list (gostring * list gostring)) (w : world) :
  bag (detach_all d ord w) = bag w
  /\ exists evs, trace (detach_all d ord w) = trace w ++ evs
                 /\ map osa_args evs = map (fun kv => Some kv.2) ord.
Proof.
  revert w. induction ord as [|[c command] rest IH]; intros w; simpl.
  - split; [reflexivity|]. exists []. rewrite app_nil_r. split; reflexivity.
  - destruct (IH (mkWorld (bag w) (trace w ++ [EOsa command (ExecuteOsaScript d (trace w) command)])))
      as [Hb (evs & Ht & Hm)].
    split; [exact Hb|].
    exists (EOsa command (ExecuteOsaScript d (trace w) command) :: evs).
    split; [rewrite Ht; simpl; rewrite <- app_assoc; reflexivity|].
    simpl. f_equal. exact Hm.
Qed.

(* ------------------------------------------------------------------ *)
(** * Claims on StepAttachISOs *)

(** C4: Cleanup makes no driver call when the table is empty, nor when
    the "detached_isos" marker is present; otherwise it makes exactly one
    detach call per recorded entry (in Go's iteration order [ord], a
    permutation of the table), attempting all of them whatever each one
    answers, and leaves the state bag (in particular "error") as it was. *)
Theorem attach_cleanup_detaches (d : Driver) (cmds : unmount_table)
    (ord : list (gostring * list gostring)) (w : world) :
  ord ≡ₚ map_to_list cmds ->
  (size cmds = 0 -> attach_cleanup d cmds ord w = Some w)
  /\ (size cmds <> 0 -> has_driver (bag w) = true -> is_Some (bag w !! lit "detached_isos") ->
        attach_cleanup d cmds ord w = Some w)
  /\ (size cmds <> 0 -> has_driver (bag w) = true -> bag w !! lit "detached_isos" = None ->
        exists w' evs,
          attach_cleanup d cmds ord w = Some w'
          /\ bag w' = bag w
          /\ trace w' = trace w ++ evs
          /\ map osa_args evs = map (fun kv => Some kv.2) ord
          /\ map osa_args evs ≡ₚ map (fun kv => Some kv.2) (map_to_list cmds)).
Proof.
  intros Hord. unfold attach_cleanup. split; [|split].
  - intros Hs. rewrite Hs. reflexivity.
  - intros Hs Hd [v Hv]. apply Nat.eqb_neq in Hs. rewrite Hs, Hd, Hv. reflexivity.
  - intros Hs Hd Hn. apply Nat.eqb_neq in Hs. rewrite Hs, Hd, Hn. simpl.
    destruct (detach_all_spec d ord w) as [Hb (evs & Ht & Hm)].
    exists (detach_all d ord w), evs.
    split; [reflexivity|]. split; [exact Hb|]. split; [exact Ht|]. split; [exact Hm|].
    rewrite Hm. apply Permutation_map. exact Hord.
Qed.

Lemma attach_cleanup_detaches_witness :
  map_to_list cmds_two ≡ₚ map_to_list cmds_two
  /\ exists w' evs,
       attach_cleanup drv_fail2 cmds_two (map_to_list cmds_two) w0 = Some w'
       /\ bag w' = bag w0 /\ trace w' = trace w0 ++ evs
       /\ map osa_args evs = map (fun kv => Some kv.2) (map_to_list cmds_two)
       /\ map osa_args evs ≡ₚ map (fun kv => Some kv.2) (map_to_list cmds_two).
Proof.
  split; [reflexivity|].
  destruct (attach_cleanup_detaches drv_fail2 cmds_two (map_to_list cmds_two) w0)
    as (_ & _ & H); [reflexivity|].
  apply H.
  - vm_compute. discriminate.
  - reflexivity.
  - reflexivity.
Defined.





Lemma applicable_NoDup (s : StepAttachISOs) (b : gmap gostring value) : NoDup (applicable s b).
Proof.
  unfold applicable.
  destruct (AttachBootISO s), (bool_decide (is_Some (b !! lit "cd_path"))),
    (bool_decide (GuestAdditionsMode s = GuestAdditionsModeAttach));
    apply (bool_decide_unpack _); vm_compute; exact I.
Qed.

Lemma has_driver_same (b b' : gmap gostring value) :
  b' !! lit "driver" = b !! lit "driver" -> has_driver b' = has_driver b.
Proof. unfold has_driver. intros ->. reflexivity. Qed.

(** A recorded entry is detached by a cleanup that runs. *)
Lemma attach_cleanup_issues (d : Driver) (cmds : unmount_table)
    (ord : list (gostring * list gostring)) (w : world) (c : gostring) (cmd : list gostring) :
  ord ≡ₚ map_to_list cmds -> cmds !! c = Some cmd ->
  has_driver (bag w) = true -> bag w !! lit "detached_isos" = None ->
  exists w'' evs' r, attach_cleanup d cmds ord w = Some w''
    /\ trace w'' = trace w ++ evs' /\ In (EOsa cmd r) evs'.
Proof.
  intros Hord Hc Hd Hn.
  assert (Hs : size cmds <> 0).
  { intros Hz. apply map_size_empty_inv in Hz. subst cmds. rewrite lookup_empty in Hc. discriminate. }
  unfold attach_cleanup. rewrite (proj2 (Nat.eqb_neq _ _) Hs), Hd, Hn. cbn [negb].
  destruct (detach_all_spec d ord w) as [_ (evs' & Ht & Hm)].
  assert (Hin : In (c, cmd) ord).
  { apply list_elem_of_In. rewrite Hord. apply elem_of_map_to_list. exact Hc. }
  assert (Hin' : In (Some cmd) (map osa_args evs')).
  { rewrite Hm. apply (in_map (fun kv : gostring * list gostring => Some kv.2) ord (c, cmd)). exact Hin. }
  apply in_map_iff in Hin' as (e & He & Hine).
  destruct e as [a r | | |]; simpl in He; try discriminate. inversion He; subst.
  exists (detach_all d ord w), evs', r. auto.
Qed.

(** C3 (as amended): a run continues exactly when the candidate list was
    computed and every candidate's attach call was accepted (no driver
    error, a UUID in the output); the table is published under
    "disk_unmount_commands" if and only if, besides, there is at least one
    candidate: a continuing run with candidates changes the state only by
    that write, a halting run leaves that key as it was, and a run with no
    candidate continues without touching the state.  After any run, halted
    partway or not, each attach call whose output yielded a UUID is
    followed by a detach of that UUID in a later Cleanup, whatever the
    shared state then holds, provided the driver is there and the
    "detached_isos" marker is absent. *)
Theorem attach_publish_and_cleanup (h : Host) (d : Driver) (s : StepAttachISOs) (w : world)
    (act : StepAction) (cmds : unmount_table) (w' : world) :
  attach_run h d s w = Some (act, cmds, w') ->
  (act = ActionContinue <->
     exists ds evs,
       collect_disks h s (bag w) = Some (Ok ds)
       /\ trace w' = trace w ++ evs /\ length evs = length ds /\ Forall attach_ok evs)
  /\ (act = ActionHalt -> bag w' !! lit "disk_unmount_commands" = bag w !! lit "disk_unmount_commands")
  /\ (collect_disks h s (bag w) = Some (Ok []) -> act = ActionContinue /\ w' = w)
  /\ (act = ActionContinue -> forall ds, collect_disks h s (bag w) = Some (Ok ds) -> ds <> [] ->
        bag w' = <[lit "disk_unmount_commands" := VCmds cmds]> (bag w)
        /\ forall disk, In disk ds -> is_Some (cmds !! category disk))
  /\ (forall evs, trace w' = trace w ++ evs ->
        forall a out u, In (EOsa a (Ok out)) evs -> find_uuid out = Some u ->
        exists vmId,
          get_string (bag w) (lit "vmId") = Some vmId
          /\ forall (d' : Driver) (ord : list (gostring * list gostring)) (wl : world),
               ord ≡ₚ map_to_list cmds ->
               has_driver (bag wl) = true -> bag wl !! lit "detached_isos" = None ->
               exists wl' evs' r,
                 attach_cleanup d' cmds ord wl = Some wl'
                 /\ trace wl' = trace wl ++ evs'
                 /\ In (EOsa [lit "remove_drive.applescript"; vmId; u] r) evs').
Proof.
  intros H. split.
  { destruct (attach_run_answers h d s w act cmds w' H)
      as [(ds & succ & last & Hc & Ht & HA & Hk & Hh)|(Hact & _ & e & He)].
    - split.
      + intros ->. destruct (Hk eq_refl) as [-> Hl]. rewrite app_nil_r in Ht.
        exists ds, succ. auto.
      + intros (ds' & evs & Hc' & Ht' & Hl' & HA'). rewrite Hc in Hc'. injection Hc' as <-.
        destruct act; [reflexivity|exfalso].
        destruct (Hh eq_refl) as [Hlt Hlast].
        rewrite Ht in Ht'. apply app_inv_head in Ht'. subst evs.
        destruct Hlast as [->|(c & r & -> & Hf)].
        * rewrite app_nil_r in Hl'. lia.
        * apply Forall_app in HA' as [_ HA']. apply Forall_inv in HA'.
          destruct HA' as (c' & out & u & Heq & Hu). injection Heq as _ Hr. subst r.
          destruct Hf as [(e & He)|(out' & He & Hn)]; congruence.
    - subst act. split; [discriminate|]. intros (ds & evs & Hc & _). congruence. }
  revert H.
  unfold attach_run. destruct (has_ui (bag w)); [|discriminate]. cbn [negb].
  destruct (collect_disks h s (bag w)) as [[ds|e]|] eqn:Hc; [| |discriminate].
  - destruct ds as [|disk rest].
    + intros H. inversion H; subst. split; [discriminate|]. split; [auto|].
      split; [intros _ ds Hds Hne; inversion Hds; subst; congruence|].
      intros evs Hevs. rewrite <- (app_nil_r (trace w')) in Hevs at 1.
      apply app_inv_head in Hevs. subst evs. intros ? ? ? [].
    + destruct (has_driver (bag w)) eqn:Hdrv; [|discriminate]. cbn [negb].
      destruct (get_string (bag w) (lit "vmId")) as [vmId|] eqn:Hv; [|discriminate].
      destruct (attach_loop h d s vmId (disk :: rest) ∅ w) as [[a c] w2] eqn:Hl.
      pose proof (collect_disks_categories h s (bag w) (disk :: rest) Hc) as Hcat.
      assert (Hnd : NoDup (map category (disk :: rest))) by (rewrite Hcat; apply applicable_NoDup).
      destruct (attach_loop_records h d s vmId (disk :: rest) ∅ w a c w2 Hnd
                  (fun _ _ => lookup_empty _) Hl) as [_ Hrec].
      intros H. split; [|split; [discriminate|]].
      * intros ->. destruct a; inversion H; subst.
        apply (attach_loop_bag h d s vmId (disk :: rest) ∅ w ActionHalt cmds w' _ Hl).
        vm_compute. congruence.
      * split.
        -- intros -> ds Hds _. inversion Hds; subst. destruct a; inversion H; subst.
           split.
           ++ cbn [put bag]. rewrite (proj1 (attach_loop_world h d s vmId (disk :: rest) ∅ w
                                        ActionContinue cmds w2 Hl) eq_refl).
              reflexivity.
           ++ apply (attach_loop_continue h d s vmId (disk :: rest) ∅ w cmds w2 Hl).
        -- intros evs Hevs a' out u Hin Hu.
           assert (Htr : trace w2 = trace w ++ evs) by (destruct a; inversion H; subst; exact Hevs).
           destruct (Hrec evs Htr a' out u Hin Hu) as [cat Hcat'].
           assert (Hcm : c = cmds) by (destruct a; inversion H; reflexivity). subst c.
           exists vmId. split; [reflexivity|].
           intros d' ord wl Hord Hdw Hdet.
           exact (attach_cleanup_issues d' cmds ord wl cat _ Hord Hcat' Hdw Hdet).
  - intros H. inversion H; subst. split; [intros _; simpl; apply lookup_insert_ne; vm_compute; congruence|].
    split; [discriminate|]. split; [discriminate|].
    intros evs Hevs. simpl in Hevs. rewrite <- (app_nil_r (trace w)) in Hevs at 1.
    apply app_inv_head in Hevs. subst evs. intros ? ? ? [].
Qed.

Lemma attach_publish_and_cleanup_witness :
  (ActionContinue = ActionContinue <->
     exists ds evs,
       collect_disks host0 attach_all (bag w_isos) = Some (Ok ds)
       /\ trace world_all = trace w_isos ++ evs /\ length evs = length ds /\ Forall attach_ok evs)
  /\ (ActionContinue = ActionHalt ->
        bag world_all !! lit "disk_unmount_commands" = bag w_isos !! lit "disk_unmount_commands")
  /\ (collect_disks host0 attach_all (bag w_isos) = Some (Ok []) ->
        ActionContinue = ActionContinue /\ world_all = w_isos)
  /\ (ActionContinue = ActionContinue ->
        forall ds, collect_disks host0 attach_all (bag w_isos) = Some (Ok ds) -> ds <> [] ->
        bag world_all = <[lit "disk_unmount_commands" := VCmds table_all]> (bag w_isos)
        /\ forall disk, In disk ds -> is_Some (table_all !! category disk))
  /\ (forall evs, trace world_all = trace w_isos ++ evs ->
        forall a out u, In (EOsa a (Ok out)) evs -> find_uuid out = Some u ->
        exists vmId,
          get_string (bag w_isos) (lit "vmId") = Some vmId
          /\ forall (d' : Driver) (ord : list (gostring * list gostring)) (wl : world),
               ord ≡ₚ map_to_list table_all ->
               has_driver (bag wl) = true -> bag wl !! lit "detached_isos" = None ->
               exists wl' evs' r,
                 attach_cleanup d' table_all ord wl = Some wl'
                 /\ trace wl' = trace wl ++ evs'
                 /\ In (EOsa [lit "remove_drive.applescript"; vmId; u] r) evs').
Proof.
  apply (attach_publish_and_cleanup host0 drv_uuid attach_all w_isos ActionContinue table_all
           world_all).
  vm_compute. reflexivity.
Defined.

(** C3 as stated fails twice: a run with no candidate (all attachments
    vacuously succeeded) continues without writing
    "disk_unmount_commands"; and with the "detached_isos" marker present,
    a run that halted after attaching the boot ISO is followed by a
    Cleanup that issues no detach. *)
Lemma attach_publish_counterexample :
  (attach_run host0 drv_uuid attach_none w0 = Some (ActionContinue, ∅, w0)
   /\ bag w0 !! lit "disk_unmount_commands" = None)
  /\ exists cmds w',
       attach_run host0 drv_fail2 attach_all w_marked = Some (ActionHalt, cmds, w')
       /\ cmds !! lit "boot_iso" = Some [lit "remove_drive.applescript"; lit "vm-1"; uuid_txt]
       /\ attach_cleanup drv_fail2 cmds (map_to_list cmds) w' = Some w'.
Proof.
  split; [split; vm_compute; reflexivity|].
  eexists _, _. split; [vm_compute; reflexivity|].
  split; vm_compute; reflexivity.
Qed.

Example canonical_uuid_txt : contains_canonical_uuid uuid_txt = true.
Proof. vm_compute. reflexivity. Qed.

Example find_uuid_txt : find_uuid (lit "id: " ++ uuid_txt) = Some uuid_txt.
Proof. vm_compute. reflexivity. Qed.

(** C2 (code bug): the driver output "000...0" (36 zeros) holds no
    canonical UUID, yet the step records reversal commands built from it
    and continues, writing no error. *)
Theorem attach_accepts_non_uuid :
  contains_canonical_uuid zeros36 = false
  /\ exists cmds w',
       attach_run host0 drv_zeros attach_all w_isos = Some (ActionContinue, cmds, w')
       /\ cmds !! lit "boot_iso" = Some [lit "remove_drive.applescript"; lit "vm-1"; zeros36]
       /\ bag w' !! lit "error" = None.
Proof.
  split; [vm_compute; reflexivity|].
  eexists _, _. split; [vm_compute; reflexivity|].
  split; vm_compute; reflexivity.
Qed.

(* ------------------------------------------------------------------ *)
(** * The UUID pattern *)

Lemma find_uuid_cons (a : rune) (rest : gostring) :
  find_uuid (a :: rest)
  = if uuid_window (a :: rest) 0 then Some (take 36 (a :: rest)) else find_uuid rest.
Proof. reflexivity. Qed.

Lemma uuid_window_cons (a : rune) (rest : gostring) (j : nat) :
  uuid_window (a :: rest) (S j) = uuid_window rest j.
Proof. reflexivity. Qed.

Lemma uuid_window_spec (out : gostring) (i : nat) :
  uuid_window out i = true ->
  i + 36 <= length out /\ length (take 36 (drop i out)) = 36
  /\ Forall (fun r => uuid_class r = true) (take 36 (drop i out)).
Proof.
  unfold uuid_window. rewrite andb_true_iff, Nat.leb_le, forallb_forall.
  intros [Hl Hf]. split; [exact Hl|]. split.
  - rewrite length_take, length_drop. lia.
  - apply List.Forall_forall. exact Hf.
Qed.

(** The identifier the attach step extracts from the driver output:
    36 characters of [0-9a-fA-F-], a contiguous piece of the output,
    and the leftmost such run (no earlier position starts one). *)
Theorem find_uuid_leftmost (out u : gostring) :
  find_uuid out = Some u ->
  exists pre post,
    out = pre ++ u ++ post /\ length u = 36 /\ Forall (fun r => uuid_class r = true) u
    /\ forall i, i < length pre -> uuid_window out i = false.
Proof.
  induction out as [|a rest IH]; [discriminate|].
  rewrite find_uuid_cons. destruct (uuid_window (a :: rest) 0) eqn:E.
  - intros H. inversion H; subst u. clear H.
    apply uuid_window_spec in E as (_ & Hl & Hf). rewrite drop_0 in Hl, Hf.
    exists [], (drop 36 (a :: rest)). split; [rewrite app_nil_l; symmetry; apply (take_drop 36 (a :: rest))|].
    split; [exact Hl|]. split; [exact Hf|]. intros i Hi. simpl in Hi. lia.
  - intros H. apply IH in H as (pre & post & Hout & Hl & Hf & Hleft).
    exists (a :: pre), post. split; [rewrite Hout; reflexivity|].
    split; [exact Hl|]. split; [exact Hf|].
    intros [|j] Hj; [exact E|]. rewrite uuid_window_cons. apply Hleft. simpl in Hj. lia.
Qed.

Lemma find_uuid_leftmost_witness :
  exists pre post,
    lit "id: " ++ uuid_txt = pre ++ uuid_txt ++ post /\ length uuid_txt = 36
    /\ Forall (fun r => uuid_class r = true) uuid_txt
    /\ forall i, i < length pre -> uuid_window (lit "id: " ++ uuid_txt) i = false.
Proof. apply (find_uuid_leftmost (lit "id: " ++ uuid_txt) uuid_txt). vm_compute. reflexivity. Defined.

Lemma find_uuid_none (out : gostring) :
  find_uuid out = None <-> forall i, uuid_window out i = false.
Proof.
  induction out as [|a rest IH].
  - split; [|reflexivity]. intros _ i. unfold uuid_window.
    destruct (i + 36 <=? length []) eqn:E; [apply Nat.leb_le in E; simpl in E; lia|reflexivity].
  - rewrite find_uuid_cons. destruct (uuid_window (a :: rest) 0) eqn:E.
    + split; [discriminate|]. intros H. rewrite H in E. discriminate.
    + rewrite IH. split.
      * intros H [|i]; [exact E|]. rewrite uuid_window_cons. apply H.
      * intros H i. rewrite <- uuid_window_cons with (a := a). apply H.
Qed.

(** The attach step finds no identifier exactly when the output holds no
    run of 36 characters of [0-9a-fA-F-] anywhere. *)
Theorem find_uuid_none_iff (out : gostring) :
  find_uuid out = None <-> forall i, uuid_window out i = false.
Proof. apply find_uuid_none. Qed.

Lemma uuid_class_hex (r : rune) : uuid_class r = hex_digit r || (r =? 45)%N.
Proof. reflexivity. Qed.

Lemma canonical_class (t : gostring) (n : nat) :
  forallb (fun '(i, r) => if (i =? 8) || (i =? 13) || (i =? 18) || (i =? 23)
                          then (r =? 45)%N else hex_digit r)
          (zip (seq n (length t)) t) = true ->
  forallb uuid_class t = true.
Proof.
  revert n. induction t as [|r t IH]; intros n; [reflexivity|].
  simpl. rewrite !andb_true_iff. intros [Hr Ht]. split; [|exact (IH _ Ht)].
  rewrite uuid_class_hex. destruct (_ || _); rewrite Hr; [apply orb_true_r | reflexivity].
Qed.

Lemma canonical_window (t : gostring) :
  is_canonical_uuid t = true -> length t = 36 /\ forallb uuid_class t = true.
Proof.
  unfold is_canonical_uuid. rewrite andb_true_iff, Nat.eqb_eq. intros [Hl Hf].
  split; [exact Hl|]. apply (canonical_class t 0). rewrite Hl. exact Hf.
Qed.

(** The UUID pattern accepts every canonical UUID: an output that is a
    canonical 8-4-4-4-12 UUID yields exactly that UUID, and an output
    containing one always yields some identifier (the leftmost run of
    the pattern, which need not be that UUID). *)
Theorem find_uuid_accepts_canonical (u out : gostring) :
  (is_canonical_uuid u = true -> find_uuid u = Some u)
  /\ (contains_canonical_uuid out = true -> exists v, find_uuid out = Some v).
Proof.
  split.
  - intros Hc. apply canonical_window in Hc as [Hl Hf].
    destruct u as [|a rest]; [discriminate|]. rewrite find_uuid_cons.
    assert (Hw : uuid_window (a :: rest) 0 = true).
    { unfold uuid_window. rewrite drop_0, take_ge by lia. rewrite Hf, Hl. reflexivity. }
    rewrite Hw, take_ge by lia. reflexivity.
  - unfold contains_canonical_uuid. intros Hc. apply existsb_exists in Hc as (i & _ & Hi).
    apply canonical_window in Hi as [Hl Hf].
    destruct (find_uuid out) as [v|] eqn:E; [eauto|].
    exfalso. pose proof (proj1 (find_uuid_none out) E i) as E1. clear E. rename E1 into E.
    unfold uuid_window in E. rewrite Hf, andb_true_r in E.
    apply Nat.leb_gt in E. rewrite length_take, length_drop in Hl. lia.
Qed.

(** Shifted windows: an output with a hex digit in front of a canonical
    UUID yields a 36-character run that is not the UUID. *)
Example find_uuid_shifted :
  find_uuid (lit "a" ++ uuid_txt) = Some (take 36 (lit "a" ++ uuid_txt))
  /\ is_canonical_uuid (take 36 (lit "a" ++ uuid_txt)) = false.
Proof. split; vm_compute; reflexivity. Qed.

(* ------------------------------------------------------------------ *)
(** * StepAttachISOs: effects, table and paths *)

Lemma find_uuid_shape (out u : gostring) :
  find_uuid out = Some u -> length u = 36 /\ Forall (fun r => uuid_class r = true) u.
Proof.
  induction out as [|a rest IH]; [discriminate|].
  change (find_uuid (a :: rest))
    with (if uuid_window (a :: rest) 0 then Some (take 36 (a :: rest)) else find_uuid rest).
  destruct (uuid_window (a :: rest) 0) eqn:E; [|exact IH].
  intros H. injection H as <-. unfold uuid_window in E.
  rewrite andb_true_iff, Nat.leb_le, forallb_forall, drop_0 in E. destruct E as [Hl Hf].
  split; [simpl; rewrite length_take; simpl in Hl; lia | apply List.Forall_forall; exact Hf].
Qed.

(** The loop leaves the state bag as it found it when it continues, and
    only adds "error" when it halts. *)
(** Every entry of the table after the loop was there before, or is the
    reversal command of a disk of the loop, built from an identifier of
    36 characters of the UUID class. *)
Lemma attach_loop_entries (h : Host) (d : Driver) (s : StepAttachISOs) (vmId : gostring)
    (ds : list diskToMount) (cmds0 : unmount_table) (w : world)
    (act : StepAction) (cmds : unmount_table) (w' : world) :
  attach_loop h d s vmId ds cmds0 w = (act, cmds, w') ->
  forall c v, cmds !! c = Some v ->
    cmds0 !! c = Some v
    \/ (In c (map category ds)
        /\ exists u, v = [lit "remove_drive.applescript"; vmId; u]
                     /\ length u = 36 /\ Forall (fun r => uuid_class r = true) u).
Proof.
  revert cmds0 w. induction ds as [|disk rest IH]; intros cmds0 w Hl; simpl in Hl.
  - inversion Hl; subst. auto.
  - unfold osa in Hl.
    destruct (prepare_attach h s vmId disk) as [command|e];
      [destruct (ExecuteOsaScript d (trace w) command) as [out|e];
       [destruct (find_uuid out) as [u|] eqn:Hu|]|];
      try (inversion Hl; subst; auto; fail).
    intros c v Hc. destruct (IH _ _ Hl c v Hc) as [H0 | [Hin Hv]].
    + destruct (decide (c = category disk)) as [->|Hne].
      * rewrite lookup_insert_eq in H0. inversion H0; subst. right.
        split; [left; reflexivity|]. apply find_uuid_shape in Hu. eauto.
      * rewrite lookup_insert_ne in H0 by congruence. left. exact H0.
    + right. split; [right; exact Hin | exact Hv].
Qed.

Lemma applicable_length (s : StepAttachISOs) (b : gmap gostring value) :
  length (applicable s b) <= 3.
Proof.
  unfold applicable. rewrite !length_app.
  destruct (AttachBootISO s), (bool_decide _), (bool_decide _); simpl; lia.
Qed.

(** What a run of StepAttachISOs does to the world: on halt it only
    writes "error" into the state bag, on continue it writes at most
    "disk_unmount_commands"; its driver calls are at most three, all of
    them attach_iso.applescript calls for the VM named in "vmId" (the
    run never detaches). *)
Theorem attach_run_effects (h : Host) (d : Driver) (s : StepAttachISOs) (w : world)
    (act : StepAction) (cmds : unmount_table) (w' : world) :
  attach_run h d s w = Some (act, cmds, w') ->
  (act = ActionHalt -> exists msg, bag w' = <[lit "error" := VErr msg]> (bag w))
  /\ (act = ActionContinue ->
        bag w' = bag w \/ bag w' = <[lit "disk_unmount_commands" := VCmds cmds]> (bag w))
  /\ exists evs vmId,
       trace w' = trace w ++ evs /\ length evs <= 3
       /\ (evs <> [] -> get_string (bag w) (lit "vmId") = Some vmId)
       /\ Forall (fun e => exists code p r,
                    e = EOsa [lit "attach_iso.applescript"; vmId; lit "--interface"; code;
                              lit "--source"; p] r) evs.
Proof.
  unfold attach_run. destruct (has_ui (bag w)); [|discriminate]. simpl.
  destruct (collect_disks h s (bag w)) as [[ds|e]|] eqn:Hc; [| |discriminate].
  - pose proof (collect_disks_categories h s (bag w) ds Hc) as Hcat.
    destruct ds as [|disk rest].
    + intros H. inversion H; subst. split; [discriminate|]. split; [auto|].
      exists [], []. rewrite app_nil_r. repeat split; simpl; try lia; try constructor; congruence.
    + destruct (has_driver (bag w)); [|discriminate]. cbn [negb].
      destruct (get_string (bag w) (lit "vmId")) as [vmId|] eqn:Hv; [|discriminate].
      destruct (attach_loop h d s vmId (disk :: rest) ∅ w) as [[a c] w2] eqn:Hl.
      pose proof Hl as Hw. apply attach_loop_world in Hw as [Hwc Hwh].
      apply attach_loop_prefix in Hl as (k & cs & evs & HF & Ht & Hm & _).
      assert (Hev : trace w2 = trace w ++ evs /\ length evs <= 3
                    /\ (evs <> [] -> Some vmId = Some vmId)
                    /\ Forall (fun e => exists code p r,
                         e = EOsa [lit "attach_iso.applescript"; vmId; lit "--interface"; code;
                                   lit "--source"; p] r) evs).
      { split; [exact Ht|]. split.
        - apply (f_equal length) in Hm. rewrite !length_map in Hm. rewrite Hm.
          apply Forall2_length in HF. rewrite <- HF, length_firstn.
          pose proof (applicable_length s (bag w)) as Ha. rewrite <- Hcat, length_map in Ha. lia.
        - split; [auto|].
          clear Ht Hwc Hwh. revert cs HF Hm. generalize (firstn k (disk :: rest)) as l.
          induction evs as [|e evs IHe]; intros l cs HF Hm; [constructor|].
          destruct cs as [|c0 cs]; [discriminate|]. simpl in Hm. inversion Hm as [[He Hm']].
          destruct l as [|dk l]; [inversion HF|]. inversion HF; subst.
          constructor; [|eapply IHe; eassumption].
          unfold prepare_attach in *.
          destruct (EvalSymlinks h (isoPath dk)) as [p|]; [|discriminate].
          destruct (GetControllerEnumCode h _) as [code|]; [|discriminate].
          match goal with Hx : Ok _ = Ok c0 |- _ => inversion Hx; subst c0 end.
          destruct e as [args r| | |]; try discriminate. simpl in He. inversion He; subst.
          eauto. }
      destruct a; intros H; inversion H; subst.
      * split; [discriminate|]. split; [intros _; right; rewrite <- Hwc by reflexivity; reflexivity|].
        exists evs, vmId. exact Hev.
      * split; [intros _; apply Hwh; reflexivity|]. split; [discriminate|].
        exists evs, vmId. exact Hev.
  - intros H. inversion H; subst. split; [eauto|]. split; [discriminate|].
    exists [], []. rewrite app_nil_r. repeat split; simpl; try lia; try constructor; congruence.
Qed.

Lemma attach_run_effects_witness :
  (ActionContinue = ActionHalt -> exists msg, bag world_all = <[lit "error" := VErr msg]> (bag w_isos))
  /\ (ActionContinue = ActionContinue ->
        bag world_all = bag w_isos
        \/ bag world_all = <[lit "disk_unmount_commands" := VCmds table_all]> (bag w_isos))
  /\ exists evs vmId,
       trace world_all = trace w_isos ++ evs /\ length evs <= 3
       /\ (evs <> [] -> get_string (bag w_isos) (lit "vmId") = Some vmId)
       /\ Forall (fun e => exists code p r,
                    e = EOsa [lit "attach_iso.applescript"; vmId; lit "--interface"; code;
                              lit "--source"; p] r) evs.
Proof.
  apply (attach_run_effects host0 drv_uuid attach_all w_isos ActionContinue table_all world_all).
  vm_compute. reflexivity.
Defined.

(** The reversal table a run leaves: every entry belongs to an
    applicable category and is [remove_drive.applescript; vmId; u] with
    u a 36-character run of [0-9a-fA-F-]; a continuing run has an entry
    for every applicable category. *)
Theorem attach_run_table (h : Host) (d : Driver) (s : StepAttachISOs) (w : world)
    (act : StepAction) (cmds : unmount_table) (w' : world) :
  attach_run h d s w = Some (act, cmds, w') ->
  (forall c v, cmds !! c = Some v ->
     In c (applicable s (bag w))
     /\ exists vmId u, get_string (bag w) (lit "vmId") = Some vmId
          /\ v = [lit "remove_drive.applescript"; vmId; u]
          /\ length u = 36 /\ Forall (fun r => uuid_class r = true) u)
  /\ (act = ActionContinue -> forall c, In c (applicable s (bag w)) -> is_Some (cmds !! c)).
Proof.
  unfold attach_run. destruct (has_ui (bag w)); [|discriminate]. simpl.
  destruct (collect_disks h s (bag w)) as [[ds|e]|] eqn:Hc; [| |discriminate].
  - pose proof (collect_disks_categories h s (bag w) ds Hc) as Hcat.
    destruct ds as [|disk rest].
    + intros H. inversion H; subst. split.
      * intros c v Hcv. rewrite lookup_empty in Hcv. discriminate.
      * intros _ c Hin. rewrite <- Hcat in Hin. destruct Hin.
    + destruct (has_driver (bag w)); [|discriminate]. cbn [negb].
      destruct (get_string (bag w) (lit "vmId")) as [vmId|] eqn:Hv; [|discriminate].
      destruct (attach_loop h d s vmId (disk :: rest) ∅ w) as [[a c] w2] eqn:Hl.
      intros H. assert (c = cmds) as <- by (destruct a; inversion H; reflexivity).
      split.
      * intros c' v Hcv. destruct (attach_loop_entries _ _ _ _ _ _ _ _ _ _ Hl c' v Hcv)
          as [H0 | [Hin (u & Hvu & Hu)]]; [rewrite lookup_empty in H0; discriminate|].
        rewrite <- Hcat. split; [exact Hin|]. exists vmId, u. auto.
      * intros Ha c' Hin. assert (a = ActionContinue) as -> by (destruct a; inversion H; congruence).
        apply attach_loop_continue in Hl as [_ Hall]. rewrite <- Hcat in Hin.
        apply in_map_iff in Hin as (disk' & <- & Hd). apply Hall. exact Hd.
  - intros H. inversion H; subst. split.
    + intros c v Hcv. rewrite lookup_empty in Hcv. discriminate.
    + discriminate.
Qed.

Lemma attach_run_table_witness :
  (forall c v, table_all !! c = Some v ->
     In c (applicable attach_all (bag w_isos))
     /\ exists vmId u, get_string (bag w_isos) (lit "vmId") = Some vmId
          /\ v = [lit "remove_drive.applescript"; vmId; u]
          /\ length u = 36 /\ Forall (fun r => uuid_class r = true) u)
  /\ (ActionContinue = ActionContinue ->
        forall c, In c (applicable attach_all (bag w_isos)) -> is_Some (table_all !! c)).
Proof.
  apply (attach_run_table host0 drv_uuid attach_all w_isos ActionContinue table_all world_all).
  vm_compute. reflexivity.
Defined.

Lemma absolutize_ok (h : Host) (what p a : gostring) :
  absolutize h what p = Ok a ->
  (IsAbs h p = true /\ a = p) \/ (IsAbs h p = false /\ Abs h p = Ok a).
Proof.
  unfold absolutize. destruct (IsAbs h p); [intros H; inversion H; auto|].
  destruct (Abs h p); intros H; inversion H; subst; auto.
Qed.

Lemma absolutize_err (h : Host) (what p e : gostring) :
  absolutize h what p = Err e ->
  IsAbs h p = false
  /\ exists err, Abs h p = Err err /\ e = lit "error converting " ++ what ++ lit " to absolute path: " ++ err.
Proof.
  unfold absolutize. destruct (IsAbs h p); [discriminate|].
  destruct (Abs h p); intros H; inversion H; subst; eauto.
Qed.

Lemma iso_state_key_boot : iso_state_key (lit "boot_iso") = lit "iso_path".
Proof. vm_compute. reflexivity. Qed.
Lemma iso_state_key_cd : iso_state_key (lit "cd_files") = lit "cd_path".
Proof. vm_compute. reflexivity. Qed.
Lemma iso_state_key_ga : iso_state_key (lit "guest_additions") = lit "guest_additions_path".
Proof. vm_compute. reflexivity. Qed.

(** Where the step's candidate paths come from: each candidate's path is
    the string stored under its category's key (iso_path, cd_path,
    guest_additions_path), kept as it is when filepath.IsAbs holds and
    replaced by filepath.Abs of it otherwise; the candidate list fails
    only when filepath.Abs fails on a relative path, with the message
    "error converting <key> to absolute path: <err>". *)
Theorem collect_disks_paths (h : Host) (s : StepAttachISOs) (b : gmap gostring value) :
  (forall ds, collect_disks h s b = Some (Ok ds) ->
     Forall (fun disk => exists p, get_string b (iso_state_key (category disk)) = Some p
               /\ ((IsAbs h p = true /\ isoPath disk = p)
                   \/ (IsAbs h p = false /\ Abs h p = Ok (isoPath disk)))) ds)
  /\ (forall e, collect_disks h s b = Some (Err e) ->
       exists key p err,
         In key [lit "iso_path"; lit "cd_path"; lit "guest_additions_path"]
         /\ get_string b key = Some p /\ IsAbs h p = false /\ Abs h p = Err err
         /\ e = lit "error converting " ++ key ++ lit " to absolute path: " ++ err).
Proof.
  unfold collect_disks, step_bind, res_map.
  assert (Hone : forall cat key p a, iso_state_key cat = key -> get_string b key = Some p ->
            absolutize h key p = Ok a ->
            exists p0, get_string b (iso_state_key (category (mkDiskToMount cat a))) = Some p0
               /\ ((IsAbs h p0 = true /\ isoPath (mkDiskToMount cat a) = p0)
                   \/ (IsAbs h p0 = false /\ Abs h p0 = Ok (isoPath (mkDiskToMount cat a))))).
  { intros cat key p a Hk Hg Ha. exists p. simpl.
    rewrite Hk. split; [exact Hg|]. apply absolutize_ok in Ha. exact Ha. }
  assert (Herr : forall key p e, In key [lit "iso_path"; lit "cd_path"; lit "guest_additions_path"] ->
            get_string b key = Some p -> absolutize h key p = Err e ->
            exists key' p' err, In key' [lit "iso_path"; lit "cd_path"; lit "guest_additions_path"]
              /\ get_string b key' = Some p' /\ IsAbs h p' = false /\ Abs h p' = Err err
              /\ e = lit "error converting " ++ key' ++ lit " to absolute path: " ++ err).
  { intros key p e Hin Hg Ha. apply absolutize_err in Ha as (Hi & err & Hab & ->).
    exists key, p, err. auto. }
  destruct (decide (GuestAdditionsMode s = GuestAdditionsModeAttach)) as [Hm|Hm];
    [rewrite (bool_decide_eq_false_2 (GuestAdditionsMode s <> GuestAdditionsModeAttach)) by tauto;
     destruct (get_string b (lit "guest_additions_path")) as [g|] eqn:Hg;
     [destruct (absolutize h (lit "guest_additions_path") g) as [ag|eg] eqn:Hag|]
    |rewrite (bool_decide_eq_true_2 (GuestAdditionsMode s <> GuestAdditionsModeAttach)) by exact Hm];
  (destruct (AttachBootISO s);
    [destruct (get_string b (lit "iso_path")) as [p|] eqn:Hp;
     [destruct (absolutize h (lit "iso_path") p) as [a|e] eqn:Ha|]|]);
  (destruct (b !! lit "cd_path") as [[p'| | | | | |]|] eqn:Hcd;
     [destruct (absolutize h (lit "cd_path") p') as [a'|e'] eqn:Ha'| | | | | | | ]);
  try (assert (Hg' : get_string b (lit "cd_path") = Some p') by (unfold get_string; rewrite Hcd; reflexivity));
  split; intros x H; cbv beta iota in H; try discriminate H; injection H as <-;
  first
    [ repeat (apply List.Forall_cons;
              [first [ eapply Hone; [apply iso_state_key_boot | eassumption | eassumption]
                     | eapply Hone; [apply iso_state_key_cd | eassumption | eassumption]
                     | eapply Hone; [apply iso_state_key_ga | eassumption | eassumption] ]|]);
      apply List.Forall_nil
    | match goal with
      | Ha : absolutize h ?k ?p = Err ?e |- context [?e] =>
          apply (Herr k p e); [simpl; tauto | assumption | exact Ha]
      end ].
Qed.

Example collect_disks_relative :
  collect_disks host_rel attach_all bag_rel
  = Some (Ok [mkDiskToMount (lit "boot_iso") (lit "/w/b.iso"); mkDiskToMount (lit "cd_files") (lit "/c.iso");
              mkDiskToMount (lit "guest_additions") (lit "/w/g.iso")]).
Proof. vm_compute. reflexivity. Qed.

(* ------------------------------------------------------------------ *)
(** * StepConfigureQemuArgs and QemuConfig.Prepare, further *)

(** When the driver call fails the step halts with the error
    "error adding user QEMU additional arguments: <err>", leaves
    "userQemuArgs" as it was, and has made exactly that one call. *)
Theorem configure_qemu_args_driver_error (d : Driver) (s : StepConfigureQemuArgs) (w : world)
    (vmId e : gostring) :
  SQemuArgs s <> [] ->
  has_driver (bag w) = true -> has_ui (bag w) = true ->
  get_string (bag w) (lit "vmId") = Some vmId ->
  ExecuteOsaScript d (trace w) ([lit "add_qemu_additional_args.applescript"; vmId; lit "--args"]
                                ++ map (fun g => Join g (lit " ")) (SQemuArgs s)) = Err e ->
  exists w',
    configure_qemu_run d s w = Some (ActionHalt, w')
    /\ bag w' = <[lit "error" := VErr (lit "error adding user QEMU additional arguments: " ++ e)]> (bag w)
    /\ bag w' !! lit "userQemuArgs" = bag w !! lit "userQemuArgs"
    /\ trace w' = trace w ++ [EOsa ([lit "add_qemu_additional_args.applescript"; vmId; lit "--args"]
                                    ++ map (fun g => Join g (lit " ")) (SQemuArgs s)) (Err e)].
Proof.
  intros Hne Hd Hu Hv Hx. unfold configure_qemu_run.
  destruct (SQemuArgs s) as [|g gs] eqn:Hs; [congruence|]. simpl length. cbn iota beta.
  rewrite Hd, Hu, Hv. unfold osa. cbn [negb]. rewrite Hx.
  eexists. split; [reflexivity|]. split; [reflexivity|]. split; [|reflexivity].
  cbn [bag put]. apply lookup_insert_ne. vm_compute. congruence.
Qed.

Lemma configure_qemu_args_driver_error_witness :
  exists w',
    configure_qemu_run drv_err qemu_step_accel w0 = Some (ActionHalt, w')
    /\ bag w' = <[lit "error" := VErr (lit "error adding user QEMU additional arguments: "
                                         ++ lit "applescript failed")]> (bag w0)
    /\ bag w' !! lit "userQemuArgs" = bag w0 !! lit "userQemuArgs"
    /\ trace w' = trace w0 ++ [EOsa ([lit "add_qemu_additional_args.applescript"; lit "vm-1"; lit "--args"]
                                     ++ map (fun g => Join g (lit " ")) (SQemuArgs qemu_step_accel))
                                    (Err (lit "applescript failed"))].
Proof.
  apply (configure_qemu_args_driver_error drv_err qemu_step_accel w0 (lit "vm-1") (lit "applescript failed")).
  - discriminate.
  - reflexivity.
  - reflexivity.
  - reflexivity.
  - reflexivity.
Defined.

Lemma all_space_app (s t : gostring) : all_space (s ++ t) <-> all_space s /\ all_space t.
Proof. unfold all_space. apply Forall_app. Qed.

(** A space-joined group is all whitespace exactly when each token is. *)
Lemma all_space_Join (g : list gostring) (sep : gostring) :
  all_space sep -> (all_space (Join g sep) <-> Forall all_space g).
Proof.
  intros Hsep. induction g as [|x [|y xs] IH].
  - split; intros _; [constructor | constructor].
  - simpl. rewrite Forall_cons. split; [intros H; split; [exact H | constructor] | intros [H _]; exact H].
  - change (Join (x :: y :: xs) sep) with (x ++ sep ++ Join (y :: xs) sep).
    rewrite !all_space_app, IH, (Forall_cons all_space x). tauto.
Qed.

Lemma all_space_sp : all_space (lit " ").
Proof. repeat constructor. Qed.

Lemma prepare_from_elem (n : nat) (gs : list (list gostring)) (e : qemu_error) :
  In e (prepare_from n gs)
  <-> exists i g, gs !! i = Some g
        /\ ((g = [] /\ e = EmptyArgumentList (n + i))
            \/ (g <> [] /\ Forall all_space g /\ e = ResolvesToEmpty (n + i))).
Proof.
  revert n. induction gs as [|g gs IH]; intros n.
  - simpl. split; [intros []|]. intros (i & g & Hi & _). rewrite lookup_nil in Hi. discriminate.
  - assert (Hstep : In e (prepare_from n (g :: gs))
                    <-> ((g = [] /\ e = EmptyArgumentList n)
                         \/ (g <> [] /\ Forall all_space g /\ e = ResolvesToEmpty n))
                        \/ In e (prepare_from (S n) gs)).
    { simpl. destruct g as [|t ts]; simpl.
      - split; [intros [H|H]; [left; left; auto | right; exact H]|].
        intros [[[_ H]|[H _]]|H]; [left; auto | congruence | right; exact H].
      - case_bool_decide as Hb.
        + apply TrimSpace_nil_iff in Hb. apply (all_space_Join (t :: ts) _ all_space_sp) in Hb.
          split; [intros [H|H]; [left; right; auto | right; exact H]|].
          intros [[[H _]|(_ & _ & H)]|H]; [discriminate | left; auto | right; exact H].
        + split; [intros H; right; exact H|].
          intros [[[H _]|(_ & Hf & _)]|H]; [discriminate | | exact H].
          exfalso. apply Hb. apply TrimSpace_nil_iff, (all_space_Join (t :: ts) _ all_space_sp). exact Hf. }
    rewrite Hstep, IH. split.
    + intros [H | (i & g' & Hi & H)].
      * exists 0, g. rewrite Nat.add_0_r. split; [reflexivity | exact H].
      * exists (S i), g'. replace (n + S i) with (S n + i) by lia. auto.
    + intros (i & g' & Hi & H). destruct i as [|i].
      * left. simpl in Hi. inversion Hi; subst. rewrite Nat.add_0_r in H. exact H.
      * right. exists i, g'. replace (S n + i) with (n + S i) by lia. auto.
Qed.

(** Which error Prepare reports for group i: "empty argument list"
    exactly when the group has no token, "argument resolves to empty
    string" exactly when it has tokens and every token is whitespace
    only. *)
Theorem prepare_error_kinds (c : QemuConfig) (i : nat) :
  (In (EmptyArgumentList i) (Prepare c) <-> QemuArgs c !! i = Some [])
  /\ (In (ResolvesToEmpty i) (Prepare c)
      <-> exists g, QemuArgs c !! i = Some g /\ g <> [] /\ Forall all_space g).
Proof.
  unfold Prepare. rewrite !prepare_from_elem. split; split.
  - intros (j & g & Hj & [[-> H] | (_ & _ & H)]); [|discriminate].
    inversion H; subst. exact Hj.
  - intros H. exists i, []. split; [exact H | left; split; reflexivity].
  - intros (j & g & Hj & [(_ & H) | (Hg & Hf & H)]); [discriminate|].
    inversion H; subst. eauto.
  - intros (g & Hg & Hne & Hf). exists i, g. split; [exact Hg | right; auto].
Qed.

Lemma prepare_from_shift (n k : nat) (gs : list (list gostring)) :
  prepare_from (k + n) gs = map (qemu_error_shift k) (prepare_from n gs).
Proof.
  revert n. induction gs as [|g gs IH]; intros n; [reflexivity|]. simpl.
  replace (S (k + n)) with (k + S n) by lia.
  destruct (length g =? 0); [simpl; f_equal; apply IH|].
  case_bool_decide; simpl; [f_equal|]; apply IH.
Qed.

Lemma prepare_from_app (n : nat) (gs1 gs2 : list (list gostring)) :
  prepare_from n (gs1 ++ gs2) = prepare_from n gs1 ++ prepare_from (length gs1 + n) gs2.
Proof.
  revert n. induction gs1 as [|g gs IH]; intros n; [reflexivity|]. simpl.
  replace (S (length gs + n)) with (length gs + S n) by lia.
  destruct (length g =? 0); [simpl; f_equal; apply IH|].
  case_bool_decide; simpl; [f_equal|]; apply IH.
Qed.

(** Prepare on concatenated argument lists: the errors of the first
    list, then those of the second with their indices moved up by the
    length of the first. *)
Theorem prepare_app (gs1 gs2 : list (list gostring)) :
  Prepare (mkQemuConfig (gs1 ++ gs2))
  = Prepare (mkQemuConfig gs1) ++ map (qemu_error_shift (length gs1)) (Prepare (mkQemuConfig gs2)).
Proof.
  unfold Prepare. simpl. rewrite prepare_from_app, <- prepare_from_shift. reflexivity.
Qed.

(** Once Prepare accepts the groups, each group joined with single
    spaces is an argument that does not trim to the empty string, and the
    QEMU-argument step makes at most one driver call, whose arguments are
    the script name, the VM id and "--args" followed by exactly those
    joined groups, one per group and in order. *)
Theorem prepared_args_nonblank (d : Driver) (gs : list (list gostring)) (w : world)
    (act : StepAction) (w' : world) :
  Prepare (mkQemuConfig gs) = [] ->
  configure_qemu_run d (mkStepConfigureQemuArgs gs) w = Some (act, w') ->
  Forall (fun a => TrimSpace a <> []) (map (fun g => Join g (lit " ")) gs)
  /\ exists evs, trace w' = trace w ++ evs /\ length evs <= 1
    /\ Forall (fun e => exists vmId r,
                 get_string (bag w) (lit "vmId") = Some vmId
                 /\ e = EOsa ([lit "add_qemu_additional_args.applescript"; vmId; lit "--args"]
                              ++ map (fun g => Join g (lit " ")) gs) r) evs.
Proof.
  intros Hp.
  assert (Hnb : Forall (fun a => TrimSpace a <> []) (map (fun g => Join g (lit " ")) gs)).
  { unfold Prepare in Hp. simpl in Hp. apply prepare_from_nil_iff in Hp.
    apply Forall_map. eapply Forall_impl; [exact Hp|]. intros g Hg.
    unfold bad_group in Hg. apply orb_false_iff in Hg as [_ Hg].
    apply bool_decide_eq_false in Hg. exact Hg. }
  intros H. split; [exact Hnb|]. revert H.
  unfold configure_qemu_run. simpl SQemuArgs.
  destruct (length gs =? 0).
  { intros H. inversion H; subst. exists []. rewrite app_nil_r.
    split; [reflexivity|]. split; [simpl; lia | constructor]. }
  destruct (has_driver (bag w)), (has_ui (bag w)); try discriminate. cbn [negb].
  destruct (get_string (bag w) (lit "vmId")) as [vmId|]; [|discriminate].
  unfold osa.
  set (cmd := [lit "add_qemu_additional_args.applescript"; vmId; lit "--args"]
                ++ map (fun g => Join g (lit " ")) gs).
  set (r := ExecuteOsaScript d (trace w) cmd).
  assert (Hev : exists evs, trace w ++ [EOsa cmd r] = trace w ++ evs /\ length evs <= 1
    /\ Forall (fun e => exists vmId' r,
                 Some vmId = Some vmId'
                 /\ e = EOsa ([lit "add_qemu_additional_args.applescript"; vmId'; lit "--args"]
                              ++ map (fun g => Join g (lit " ")) gs) r) evs).
  { eexists. split; [reflexivity|]. split; [simpl; lia|]. constructor; [|constructor].
    exists vmId, r. split; reflexivity. }
  destruct r; intros H; inversion H; subst; exact Hev.
Qed.

Lemma prepared_args_nonblank_witness :
  Forall (fun a => TrimSpace a <> []) (map (fun g => Join g (lit " ")) (SQemuArgs qemu_step_accel))
  /\ exists evs, trace (put (lit "userQemuArgs") (VStrs [lit "-accel hvf"; lit "-cpu host"])
                        (mkWorld bag0 [EOsa ([lit "add_qemu_additional_args.applescript"; lit "vm-1"; lit "--args"]
                                             ++ [lit "-accel hvf"; lit "-cpu host"]) (Ok (lit "ok"))]))
              = trace w0 ++ evs /\ length evs <= 1
    /\ Forall (fun e => exists vmId r,
                 get_string (bag w0) (lit "vmId") = Some vmId
                 /\ e = EOsa ([lit "add_qemu_additional_args.applescript"; vmId; lit "--args"]
                              ++ map (fun g => Join g (lit " ")) (SQemuArgs qemu_step_accel)) r) evs.
Proof.
  apply (prepared_args_nonblank drv_ok (SQemuArgs qemu_step_accel) w0 ActionContinue).
  - vm_compute. reflexivity.
  - vm_compute. reflexivity.
Defined.

(* ------------------------------------------------------------------ *)
(** * Whitespace trimming, further *)

Lemma TrimLeftFunc_split (s : gostring) (f : rune -> bool) :
  exists pre, s = pre ++ TrimLeftFunc s f /\ Forall (fun r => f r = true) pre.
Proof.
  induction s as [|r s IH]; simpl; [exists []; auto|].
  destruct (f r) eqn:Hf.
  - destruct IH as (pre & Hs & Hp). exists (r :: pre). rewrite Hs at 1. split; [reflexivity | constructor; auto].
  - exists []. auto.
Qed.

Lemma TrimLeftFunc_keep (s : gostring) (f : rune -> bool) (r : rune) (t : gostring) :
  s = r :: t -> f r = false -> TrimLeftFunc s f = s.
Proof. intros -> Hr. simpl. rewrite Hr. reflexivity. Qed.

(** strings.TrimSpace removes exactly a whitespace prefix and a
    whitespace suffix: what remains is a piece of the input that neither
    starts nor ends with a whitespace rune, so trimming again changes
    nothing. *)
Theorem TrimSpace_spec (s : gostring) :
  (exists pre post, s = pre ++ TrimSpace s ++ post /\ all_space pre /\ all_space post)
  /\ (forall r t, TrimSpace s = r :: t -> IsSpace r = false)
  /\ (forall t r, TrimSpace s = t ++ [r] -> IsSpace r = false)
  /\ TrimSpace (TrimSpace s) = TrimSpace s.
Proof.
  unfold TrimSpace, TrimRightFunc.
  set (L := TrimLeftFunc s IsSpace).
  destruct (TrimLeftFunc_split s IsSpace) as (pre & Hs & Hpre). fold L in Hs.
  destruct (TrimLeftFunc_split (rev L) IsSpace) as (pre2 & HL & Hpre2).
  set (R := TrimLeftFunc (rev L) IsSpace) in *.
  assert (HLR : L = rev R ++ rev pre2).
  { rewrite <- rev_app_distr, <- HL, rev_involutive. reflexivity. }
  assert (Hlast : forall t r, rev R = t ++ [r] -> IsSpace r = false).
  { intros t r Ht. apply (f_equal (@rev rune)) in Ht. rewrite rev_involutive, rev_unit in Ht.
    destruct (TrimLeftFunc_head (rev L) IsSpace) as [Hn | (r' & t' & Ht' & Hr')];
      [fold R in Hn; rewrite Hn in Ht; discriminate|fold R in Ht'].
    rewrite Ht' in Ht. injection Ht as -> _. exact Hr'. }
  assert (Hfirst : forall r t, rev R = r :: t -> IsSpace r = false).
  { intros r t Ht. destruct (TrimLeftFunc_head s IsSpace) as [Hn | (r' & t' & Ht' & Hr')];
      [fold L in Hn | fold L in Ht'].
    - exfalso. rewrite HLR, Ht in Hn. discriminate.
    - rewrite HLR, Ht in Ht'. injection Ht' as <- _. exact Hr'. }
  split; [|split; [exact Hfirst|split; [exact Hlast|]]].
  - exists pre, (rev pre2). split; [rewrite Hs, HLR; reflexivity|].
    split; [exact Hpre|]. unfold all_space. apply Forall_rev. exact Hpre2.
  - destruct (rev R) as [|r t] eqn:ER; [reflexivity|].
    rewrite (TrimLeftFunc_keep (r :: t) IsSpace r t) by (reflexivity || exact (Hfirst r t eq_refl)).
    destruct (exists_last (l := r :: t)) as (t0 & x & Hx); [discriminate|].
    rewrite Hx, rev_unit.
    rewrite (TrimLeftFunc_keep (x :: rev t0) IsSpace x (rev t0)) by (reflexivity || exact (Hlast t0 x Hx)).
    rewrite <- rev_unit, rev_involutive. reflexivity.
Qed.

(* ------------------------------------------------------------------ *)
(** * StepDownloadGuestAdditions, further *)

(** The guest-additions step's early failures: a failed version query
    halts with "error reading version for guest additions download:
    <err>", a failed URL template render halts with "error preparing
    guest additions url: <err>"; either way the version query is the
    only driver call, nothing is fetched, and only "error" is written. *)
Theorem download_early_errors (h : Host) (d : Driver) (s : StepDownloadGuestAdditions) (w : world) :
  DGuestAdditionsMode s <> GuestAdditionsModeDisable ->
  has_driver (bag w) = true -> has_ui (bag w) = true ->
  (forall e, Version d (trace w) = Err e ->
     download_run h d s w
     = Some (ActionHalt,
             mkWorld (<[lit "error" := VErr (lit "error reading version for guest additions download: " ++ e)]> (bag w))
                     (trace w ++ [EVersion])))
  /\ (forall v e, Version d (trace w) = Ok v -> Render h (GuestAdditionsURL s) (resolve_version v) = Err e ->
     download_run h d s w
     = Some (ActionHalt,
             mkWorld (<[lit "error" := VErr (lit "error preparing guest additions url: " ++ e)]> (bag w))
                     (trace w ++ [EVersion]))).
Proof.
  intros Hm Hd Hu. unfold download_run. rewrite Hd, Hu. cbn [negb].
  rewrite bool_decide_eq_false_2 by exact Hm. unfold version_call.
  split.
  - intros e Hv. rewrite Hv. reflexivity.
  - intros v e Hv Hr. rewrite Hv. cbv beta iota. rewrite Hr. reflexivity.
Qed.

Lemma download_early_errors_witness :
  (forall e, Version drv_noversion (trace w0) = Err e ->
     download_run host0 drv_noversion (ga_step GuestAdditionsModeAttach) w0
     = Some (ActionHalt,
             mkWorld (<[lit "error" := VErr (lit "error reading version for guest additions download: " ++ e)]> (bag w0))
                     (trace w0 ++ [EVersion])))
  /\ (forall v e, Version drv_noversion (trace w0) = Ok v ->
        Render host0 (GuestAdditionsURL (ga_step GuestAdditionsModeAttach)) (resolve_version v) = Err e ->
     download_run host0 drv_noversion (ga_step GuestAdditionsModeAttach) w0
     = Some (ActionHalt,
             mkWorld (<[lit "error" := VErr (lit "error preparing guest additions url: " ++ e)]> (bag w0))
                     (trace w0 ++ [EVersion]))).
Proof.
  apply (download_early_errors host0 drv_noversion (ga_step GuestAdditionsModeAttach) w0).
  - vm_compute. discriminate.
  - reflexivity.
  - reflexivity.
Defined.

(** Every run of the guest-additions step that is not disabled first
    queries the version, then either halts having written only "error"
    (after at most a default-path query), or hands the state bag
    untouched to one SDK download step: description "Guest additions",
    result key "guest_additions_path", extension "iso", the configured
    target path and exactly one non-empty URL; that step's action and
    state bag are the run's. *)
Theorem download_run_shape (h : Host) (d : Driver) (s : StepDownloadGuestAdditions) (w : world)
    (act : StepAction) (w' : world) :
  DGuestAdditionsMode s <> GuestAdditionsModeDisable ->
  download_run h d s w = Some (act, w') ->
  (exists msg mid, act = ActionHalt /\ (mid = [] \/ mid = [EGuestToolsIsoPath])
     /\ w' = mkWorld (<[lit "error" := VErr msg]> (bag w)) (trace w ++ EVersion :: mid))
  \/ (exists ds mid url, (mid = [] \/ mid = [EGuestToolsIsoPath])
     /\ trace w' = trace w ++ EVersion :: mid ++ [EDownload ds]
     /\ ds = mkStepDownload (Checksum ds) (lit "Guest additions") (lit "guest_additions_path")
                            (GuestAdditionsTargetPath s) [url] (lit "iso")
     /\ url <> []
     /\ DownloadRun h ds (bag w) = (act, bag w')).
Proof.
  intros Hm. unfold download_run.
  destruct (has_driver (bag w)), (has_ui (bag w)); try discriminate. cbn [negb].
  rewrite bool_decide_eq_false_2 by exact Hm. unfold version_call.
  destruct (Version d (trace w)) as [v0|e]; cbv beta iota.
  2:{ intros H. inversion H; subst. left. eexists _, []. split; [reflexivity|]. split; [auto|reflexivity]. }
  destruct (Render h (GuestAdditionsURL s) (resolve_version v0)) as [url0|e].
  2:{ intros H. inversion H; subst. left. eexists _, []. split; [reflexivity|]. split; [auto|reflexivity]. }
  case_bool_decide as Hu0.
  - unfold guest_tools_call. cbn [trace bag].
    destruct (GuestToolsIsoPath d (trace w ++ [EVersion])) as [p|e']; cbv beta iota.
    + shape_fin (EGuestToolsIsoPath :: []).
    + shape_fin (EGuestToolsIsoPath :: []).
  - shape_fin (@nil event).
Qed.

Lemma download_run_shape_witness :
  (exists msg mid, ActionContinue = ActionHalt /\ (mid = [] \/ mid = [EGuestToolsIsoPath])
     /\ mkWorld bag0 [EVersion; EGuestToolsIsoPath;
                      EDownload (mkStepDownload [] (lit "Guest additions") (lit "guest_additions_path") []
                                                [lit "/tools.iso"] (lit "iso"))]
        = mkWorld (<[lit "error" := VErr msg]> (bag w0)) (trace w0 ++ EVersion :: mid))
  \/ (exists ds mid url, (mid = [] \/ mid = [EGuestToolsIsoPath])
     /\ [EVersion; EGuestToolsIsoPath;
         EDownload (mkStepDownload [] (lit "Guest additions") (lit "guest_additions_path") []
                                   [lit "/tools.iso"] (lit "iso"))]
        = trace w0 ++ EVersion :: mid ++ [EDownload ds]
     /\ ds = mkStepDownload (Checksum ds) (lit "Guest additions") (lit "guest_additions_path")
                            (GuestAdditionsTargetPath (ga_step GuestAdditionsModeAttach)) [url] (lit "iso")
     /\ url <> []
     /\ DownloadRun host0 ds (bag w0) = (ActionContinue, bag0)).
Proof.
  apply (download_run_shape host0 drv_ok (ga_step GuestAdditionsModeAttach) w0 ActionContinue
           (mkWorld bag0 [EVersion; EGuestToolsIsoPath;
                          EDownload (mkStepDownload [] (lit "Guest additions") (lit "guest_additions_path") []
                                                    [lit "/tools.iso"] (lit "iso"))])).
  - vm_compute. discriminate.
  - vm_compute. reflexivity.
Defined.
